(** * pixelated-portfolio: comment stream, content repository, gate

    A shallow embedding of the stateful core of the portfolio site:
    the comment schema and the comments section (CommentsSection.tsx),
    the project form and manager (ProjectForm.tsx, ProjectsManager.tsx),
    the management page (Admin) and the public article page.

    React state is a record; an async handler is cut at its [await]
    into the part that runs up to the store call and the part that
    resumes on the settled promise.  Store answers are inputs. *)

From stdpp Require Import base option list strings gmap.
From Stdlib Require Import NArith ZArith.

Local Open Scope string_scope.
Local Open Scope list_scope.
Local Open Scope nat_scope.

(** ** JavaScript strings

    A JS string is a sequence of UTF-16 code units; [length] counts
    code units and [trim] strips WhiteSpace and LineTerminator code
    units from both ends. *)
Module JS.

Definition jsstring := list N.

(** WhiteSpace and LineTerminator of ECMA-262, as code units. *)
Definition is_white_space (c : N) : bool :=
  ((9 <=? c) && (c <=? 13) || (c =? 32) || (c =? 160) || (c =? 5760)
   || (8192 <=? c) && (c <=? 8202) || (c =? 8232) || (c =? 8233)
   || (c =? 8239) || (c =? 8287) || (c =? 12288) || (c =? 65279))%N.

Fixpoint trimStart (s : jsstring) : jsstring :=
  match s with
  | [] => []
  | c :: r => if is_white_space c then trimStart r else s
  end.

Definition trimEnd (s : jsstring) : jsstring := rev (trimStart (rev s)).

Definition trim (s : jsstring) : jsstring := trimEnd (trimStart s).

(** [s.split(sep)] for a one-code-unit separator: the pieces between
    the separators, in order; the empty string gives one empty piece. *)
Fixpoint split (sep : N) (s : jsstring) : list jsstring :=
  match s with
  | [] => [[]]
  | c :: r =>
      if (c =? sep)%N then [] :: split sep r
      else match split sep r with
           | [] => [[c]]
           | t :: ts => (c :: t) :: ts
           end
  end.

(** [a.join(sep)] *)
Fixpoint join (sep : jsstring) (a : list jsstring) : jsstring :=
  match a with
  | [] => []
  | [t] => t
  | t :: ts => t ++ sep ++ join sep ts
  end.

(** A source literal made of ASCII characters only. *)
Definition lit (s : string) : jsstring :=
  map Ascii.N_of_ascii (String.list_ascii_of_string s).

(** Truthiness of a string: non-empty. *)
Definition truthy (s : jsstring) : bool :=
  match s with [] => false | _ => true end.

Definition comma : N := 44.

End JS.

Export JS.

(** ** The part of zod the schemas use *)
Module Zod.

(** One issue of a failed parse: the first path segment and the message. *)
Record ZodIssue := { path : string; message : string }.

Inductive ZodStringCheck :=
| trim_check
| min_check (value : nat) (msg : string)
| max_check (value : nat) (msg : string).

(** [ZodString._parse]: the checks run in declaration order over the
    (possibly already trimmed) data; every failing check adds an issue. *)
Fixpoint ZodString_parse (checks : list ZodStringCheck) (data : jsstring)
  : jsstring * list string :=
  match checks with
  | [] => (data, [])
  | trim_check :: cs => ZodString_parse cs (trim data)
  | min_check v m :: cs =>
      let '(d, rest) := ZodString_parse cs data in
      (d, if (length data <? v)%nat then m :: rest else rest)
  | max_check v m :: cs =>
      let '(d, rest) := ZodString_parse cs data in
      (d, if (v <? length data)%nat then m :: rest else rest)
  end.

Definition at_path (p : string) (msgs : list string) : list ZodIssue :=
  map (fun m => {| path := p; message := m |}) msgs.

(** [SafeParseReturnType]: the parsed value, or the ordered issues. *)
Inductive SafeParse (A : Type) :=
| success (data : A)
| failure (errors : list ZodIssue).
Arguments success {A} data.
Arguments failure {A} errors.

Definition is_success {A} (r : SafeParse A) : bool :=
  match r with success _ => true | failure _ => false end.

Definition issues {A} (r : SafeParse A) : list ZodIssue :=
  match r with success _ => [] | failure es => es end.

Definition finish {A} (v : A) (es : list ZodIssue) : SafeParse A :=
  match es with [] => success v | _ => failure es end.

(** The issues of a result whose path starts with the field [f]. *)
Definition issues_at {A} (f : string) (r : SafeParse A) : list ZodIssue :=
  filter (fun i => path i = f) (issues r).

(** The form code's loop
    [errors.forEach(err => newErrors[err.path[0]] = err.message)]. *)
Definition collect_errors (es : list ZodIssue) : gmap string string :=
  foldl (fun acc err => <[path err := message err]> acc) ∅ es.

End Zod.

Export Zod.

(** ** commentSchema *)

(** The object handed to the schema. *)
Module CommentInput.
Record t := mk { author_name : jsstring; content : jsstring }.
End CommentInput.

Definition author_name_checks : list ZodStringCheck :=
  [trim_check;
   min_check 2 "Nome deve ter no mínimo 2 caracteres";
   max_check 50 "Nome muito longo"].

Definition content_checks : list ZodStringCheck :=
  [trim_check;
   min_check 5 "Comentário deve ter no mínimo 5 caracteres";
   max_check 1000 "Comentário muito longo"].

Definition commentSchema_safeParse (i : CommentInput.t)
  : SafeParse CommentInput.t :=
  let '(a, ea) := ZodString_parse author_name_checks (CommentInput.author_name i) in
  let '(c, ec) := ZodString_parse content_checks (CommentInput.content i) in
  finish (CommentInput.mk a c)
         (at_path "author_name" ea ++ at_path "content" ec).

(** ** The store client, as the components see it *)
Module Store.

Record PostgrestError := { pg_code : string; pg_message : string }.

(** The [{ data, error }] object a query resolves to. *)
Record Response (A : Type) := { data : option A; error : option PostgrestError }.
Arguments data {A} _.
Arguments error {A} _.

(** An awaited store promise: it resolves to a response, or rejects. *)
Inductive Settled (A : Type) :=
| fulfilled (r : Response A)
| rejected.
Arguments fulfilled {A} r.
Arguments rejected {A}.

(** What [try { const { data, error } = await q; if (error) throw error; ... }]
    hands to the code after the throw: the data, or control goes to [catch]. *)
Definition unwrap {A} (s : Settled A) : option (option A) :=
  match s with
  | fulfilled r => match error r with None => Some (data r) | Some _ => None end
  | rejected => None
  end.

Definition ok {A} (d : A) : Settled A :=
  fulfilled {| data := Some d; error := None |}.

Definition ok_null {A} : Settled A :=
  fulfilled {| data := None; error := None |}.

Definition failed {A} (e : PostgrestError) : Settled A :=
  fulfilled {| data := None; error := Some e |}.

(** The calls the components issue. *)
Inductive Call :=
| select_comments (article_id : jsstring)
| insert_comment (article_id author_name content : jsstring)
| select_projects
| delete_project (id : jsstring)
| select_articles
| select_article (id : jsstring).

End Store.

Record Toast := { title : string; description : string; destructive : bool }.

(** Everything a handler does besides setting its own state. *)
Inductive Effect :=
| store (c : Store.Call)
| toast (t : Toast)
| console_error (label : string)
| navigate (to : string).

Definition store_calls (es : list Effect) : list Store.Call :=
  omap (fun e => match e with store c => Some c | _ => None end) es.

(** ** Realtime channels of the store client *)
Module Realtime.

Record PostgresChangesFilter :=
  { event : string; schema : string; table : string; filter : jsstring }.

Record RealtimeChannel :=
  { ref : nat; topic : string; binding : PostgresChangesFilter }.

(** The client keeps the list of its open channels. *)
Record RealtimeClient := { channels : list RealtimeChannel; next_ref : nat }.

(** [client.channel(topic).on('postgres_changes', flt, cb).subscribe()] *)
Definition subscribe (tp : string) (flt : PostgresChangesFilter)
    (cl : RealtimeClient) : RealtimeChannel * RealtimeClient :=
  let ch := {| ref := next_ref cl; topic := tp; binding := flt |} in
  (ch, {| channels := ch :: channels cl; next_ref := S (next_ref cl) |}).

(** [client.removeChannel(ch)] *)
Definition removeChannel (ch : RealtimeChannel) (cl : RealtimeClient)
  : RealtimeClient :=
  {| channels := base.filter (fun c => ref c ≠ ref ch) (channels cl);
     next_ref := next_ref cl |}.

(** No open channel carries a reference the client has yet to hand out. *)
Definition well_formed (cl : RealtimeClient) : Prop :=
  Forall (fun c => ref c < next_ref cl) (channels cl).

End Realtime.

(** ** CommentsSection *)
Module Comment.
Record t := mk
  { id : jsstring; author_name : jsstring; content : jsstring;
    created_at : jsstring }.
End Comment.

Module CommentsSection.
Import Store Realtime.

Record State :=
  { comments : list Comment.t;
    loading : bool;
    submitting : bool;
    authorName : jsstring;
    content : jsstring;
    errors : gmap string string }.

Definition initial : State :=
  {| comments := []; loading := true; submitting := false;
     authorName := []; content := []; errors := ∅ |}.

Definition setComments (f : list Comment.t → list Comment.t) (st : State) :=
  {| comments := f (comments st); loading := loading st;
     submitting := submitting st; authorName := authorName st;
     content := content st; errors := errors st |}.

Definition setLoading (b : bool) (st : State) :=
  {| comments := comments st; loading := b;
     submitting := submitting st; authorName := authorName st;
     content := content st; errors := errors st |}.

Definition setSubmitting (b : bool) (st : State) :=
  {| comments := comments st; loading := loading st;
     submitting := b; authorName := authorName st;
     content := content st; errors := errors st |}.

Definition setAuthorName (s : jsstring) (st : State) :=
  {| comments := comments st; loading := loading st;
     submitting := submitting st; authorName := s;
     content := content st; errors := errors st |}.

Definition setContent (s : jsstring) (st : State) :=
  {| comments := comments st; loading := loading st;
     submitting := submitting st; authorName := authorName st;
     content := s; errors := errors st |}.

Definition setErrors (e : gmap string string) (st : State) :=
  {| comments := comments st; loading := loading st;
     submitting := submitting st; authorName := authorName st;
     content := content st; errors := e |}.

(** The subscription callback:
    [setComments(prev => [newComment, ...prev])]. *)
Definition on_insert (newComment : Comment.t) (st : State) : State :=
  setComments (fun prev => newComment :: prev) st.

(** [fetchComments] up to its [await]. *)
Definition fetchComments_call (articleId : jsstring) : Effect :=
  store (select_comments articleId).

(** [fetchComments] from its [await] on. *)
Definition fetchComments_resume (r : Settled (list Comment.t)) (st : State)
  : State * list Effect :=
  match unwrap r with
  | Some d => (setLoading false (setComments (fun _ => default [] d) st), [])
  | None => (setLoading false st, [console_error "Error fetching comments:"])
  end.

(** [handleSubmit] up to its [await]: the state, and the insert it
    issues when the input validates. *)
Definition handleSubmit_begin (articleId : jsstring) (st : State)
  : State * list Effect :=
  let st := setErrors ∅ st in
  let validation :=
    commentSchema_safeParse (CommentInput.mk (authorName st) (content st)) in
  match validation with
  | failure es => (setErrors (collect_errors es) st, [])
  | success _ =>
      (setSubmitting true st,
       [store (insert_comment articleId (trim (authorName st))
                 (trim (content st)))])
  end.

(** [handleSubmit] from its [await] on. *)
Definition handleSubmit_resume {A} (r : Settled A) (st : State)
  : State * list Effect :=
  match unwrap r with
  | Some _ =>
      (setSubmitting false (setContent [] (setAuthorName [] st)),
       [toast {| title := "Comentário enviado!";
                 description := "Obrigado por compartilhar sua opinião.";
                 destructive := false |}])
  | None =>
      (setSubmitting false st,
       [console_error "Error submitting comment:";
        toast {| title := "Erro";
                 description := "Não foi possível enviar o comentário.";
                 destructive := true |}])
  end.

(** A whole [handleSubmit] with nothing in between: the store's answer
    [r] is used only when an insert was issued. *)
Definition handleSubmit {A} (articleId : jsstring) (r : Settled A)
    (st : State) : State * list Effect :=
  let '(st1, es1) := handleSubmit_begin articleId st in
  match store_calls es1 with
  | [] => (st1, es1)
  | _ => let '(st2, es2) := handleSubmit_resume r st1 in (st2, es1 ++ es2)
  end.

(** What reaches the cache from the store: a live insert event, or the
    settled promise of a [fetchComments]. *)
Inductive Delivery :=
| live (newComment : Comment.t)
| fetched (r : Settled (list Comment.t)).

Definition deliver (st : State) (d : Delivery) : State :=
  match d with
  | live c => on_insert c st
  | fetched r => (fetchComments_resume r st).1
  end.

Definition deliver_all (ds : list Delivery) (st : State) : State :=
  foldl deliver st ds.

(** How many cached comments carry the identifier [i]. *)
Definition count_id (i : jsstring) (cs : list Comment.t) : nat :=
  length (base.filter (fun c => Comment.id c = i) cs).

(** [d] hands over a comment with identifier [i]. *)
Definition delivers (i : jsstring) (d : Delivery) : Prop :=
  match d with
  | live c => Comment.id c = i
  | fetched r =>
      match unwrap r with
      | Some (Some cs) => count_id i cs = 1
      | _ => False
      end
  end.

(** *** The subscription of the mount effect *)

Definition comments_binding (articleId : jsstring) : PostgresChangesFilter :=
  {| event := "INSERT"; schema := "public"; table := "comments";
     filter := lit "article_id=eq." ++ articleId |}.

(** A component instance: not on screen, or on screen with the channel
    its pending cleanup closes over. *)
Inductive Instance :=
| unmounted
| mounted (articleId : jsstring) (channel : RealtimeChannel).

(** The body of the [useEffect]. *)
Definition effect (articleId : jsstring) (cl : RealtimeClient)
  : Instance * RealtimeClient * list Effect :=
  let '(ch, cl') := subscribe "comments-realtime" (comments_binding articleId) cl in
  (mounted articleId ch, cl', [fetchComments_call articleId]).

(** The function the [useEffect] returns. *)
Definition cleanup (channel : RealtimeChannel) (cl : RealtimeClient)
  : RealtimeClient :=
  removeChannel channel cl.

(** What React does to an instance whose effect depends on [articleId]. *)
Inductive Lifecycle :=
| mount (articleId : jsstring)
| rerender (articleId : jsstring)
| unmount.

Definition lifecycle (w : Instance * RealtimeClient) (ev : Lifecycle)
  : Instance * RealtimeClient :=
  match ev, w.1 with
  | mount a, unmounted => (effect a w.2).1
  | rerender a', mounted a ch =>
      if decide (a' = a) then w else (effect a' (cleanup ch w.2)).1
  | unmount, mounted _ ch => (unmounted, cleanup ch w.2)
  | _, _ => w
  end.

Definition run (evs : list Lifecycle) (w : Instance * RealtimeClient)
  : Instance * RealtimeClient :=
  foldl lifecycle w evs.

(** The channels of [cl] opened after the client was in state [cl0]. *)
Definition opened_since (cl0 cl : RealtimeClient) : list RealtimeChannel :=
  base.filter (fun c => next_ref cl0 ≤ ref c) (channels cl).

(** What holds of an instance and the client between lifecycle events,
    for a client that was in state [cl0] before the instance existed. *)
Definition lifecycle_inv (cl0 : RealtimeClient) (w : Instance * RealtimeClient)
  : Prop :=
  next_ref cl0 ≤ next_ref w.2
  ∧ match w.1 with
    | unmounted => channels w.2 = channels cl0
    | mounted a ch =>
        channels w.2 = ch :: channels cl0
        ∧ next_ref cl0 ≤ ref ch < next_ref w.2
        ∧ topic ch = "comments-realtime"
        ∧ binding ch = comments_binding a
    end.

End CommentsSection.

(** ** ProjectForm *)
Module FormData.
Record t := mk
  { title : jsstring; description : jsstring; icon : jsstring;
    technologies : jsstring; demo_url : jsstring; repo_url : jsstring;
    sort_order : Z; is_published : bool }.
End FormData.

(** [dataToValidate], the object handed to [projectSchema]. *)
Module ProjectDraft.
Record t := mk
  { title : jsstring; description : jsstring; icon : jsstring;
    technologies : list jsstring;
    demo_url : option jsstring; repo_url : option jsstring;
    sort_order : Z; is_published : bool }.
End ProjectDraft.

(** The object handed to [onSave]; [null] is [None]. *)
Module ProjectPayload.
Record t := mk
  { title : jsstring; description : jsstring; icon : jsstring;
    technologies : list jsstring;
    demo_url : option jsstring; repo_url : option jsstring;
    sort_order : Z; is_published : bool }.
End ProjectPayload.

Module ProjectForm.
Section WithUrl.

(** zod's test for a well-formed URL is the platform's URL parser; it
    is a parameter here. *)
Variable is_url : jsstring → bool.

(** [z.string().url().optional().or(z.literal(''))] on a value that is
    a string or [undefined].  A string that is no URL and not empty
    fails both options; the union then reports the issue of its first
    option, whose string check only marks the result, so the message
    is the one of [url()]. *)
Definition url_or_empty_parse (v : option jsstring) : list string :=
  match v with
  | None => []
  | Some s => if is_url s || negb (truthy s) then [] else ["Invalid url"]
  end.

(** [z.array(z.string()).min(1, msg)] on an array of strings. *)
Definition ZodArray_min_parse {A} (n : nat) (msg : string) (a : list A)
  : list string :=
  if length a <? n then [msg] else [].

(** [z.number().int().min(0)] on an integer. *)
Definition sort_order_parse (n : Z) : list string :=
  if (n <? 0)%Z then ["Number must be greater than or equal to 0"] else [].

Definition projectSchema_issues (d : ProjectDraft.t) : list ZodIssue :=
  at_path "title"
    (ZodString_parse
       [min_check 1 "Título é obrigatório";
        max_check 100 "String must contain at most 100 character(s)"]
       (ProjectDraft.title d)).2
  ++ at_path "description"
    (ZodString_parse
       [min_check 1 "Descrição é obrigatória";
        max_check 500 "String must contain at most 500 character(s)"]
       (ProjectDraft.description d)).2
  ++ at_path "icon"
    (ZodString_parse [min_check 1 "Ícone é obrigatório"] (ProjectDraft.icon d)).2
  ++ at_path "technologies"
    (ZodArray_min_parse 1 "Adicione pelo menos uma tecnologia"
       (ProjectDraft.technologies d))
  ++ at_path "demo_url" (url_or_empty_parse (ProjectDraft.demo_url d))
  ++ at_path "repo_url" (url_or_empty_parse (ProjectDraft.repo_url d))
  ++ at_path "sort_order" (sort_order_parse (ProjectDraft.sort_order d)).

Definition projectSchema_safeParse (d : ProjectDraft.t) : SafeParse ProjectDraft.t :=
  finish d (projectSchema_issues d).

(** [formData.technologies.split(',').map(t => t.trim()).filter(t => t.length > 0)] *)
Definition technologiesArray (formData : FormData.t) : list jsstring :=
  base.filter (fun t => 0 < length t)
    (map trim (split comma (FormData.technologies formData))).

(** [s || undefined], [s || null] *)
Definition or_none (s : jsstring) : option jsstring :=
  if truthy s then Some s else None.

Definition dataToValidate (formData : FormData.t) : ProjectDraft.t :=
  ProjectDraft.mk (FormData.title formData) (FormData.description formData)
    (FormData.icon formData) (technologiesArray formData)
    (or_none (FormData.demo_url formData)) (or_none (FormData.repo_url formData))
    (FormData.sort_order formData) (FormData.is_published formData).

(** [handleSubmit]: the new [errors] state and the call of [onSave], if any. *)
Definition handleSubmit (formData : FormData.t) (errors : gmap string string)
  : gmap string string * option ProjectPayload.t :=
  match projectSchema_safeParse (dataToValidate formData) with
  | failure es => (collect_errors es, None)
  | success _ =>
      (errors,
       Some (ProjectPayload.mk (FormData.title formData)
               (FormData.description formData) (FormData.icon formData)
               (technologiesArray formData)
               (or_none (FormData.demo_url formData))
               (or_none (FormData.repo_url formData))
               (FormData.sort_order formData) (FormData.is_published formData)))
  end.

End WithUrl.
End ProjectForm.

(** ** ProjectsManager *)
Module Project.
Record t := mk
  { id : jsstring; title : jsstring; description : jsstring;
    technologies : list jsstring; icon : jsstring;
    demo_url : option jsstring; repo_url : option jsstring;
    sort_order : Z; is_published : bool;
    created_at : jsstring; updated_at : jsstring }.
End Project.

Module ProjectsManager.
Import Store.

Record State :=
  { projects : list Project.t;
    loading : bool;
    editingProject : option Project.t;
    isCreating : bool }.

Definition setProjects (ps : list Project.t) (st : State) : State :=
  {| projects := ps; loading := loading st;
     editingProject := editingProject st; isCreating := isCreating st |}.

Definition setLoading (b : bool) (st : State) : State :=
  {| projects := projects st; loading := b;
     editingProject := editingProject st; isCreating := isCreating st |}.

(** [fetchProjects] up to its [await]. *)
Definition fetchProjects_call : Effect := store select_projects.

(** [fetchProjects] from its [await] on. *)
Definition fetchProjects_resume (r : Settled (list Project.t)) (st : State)
  : State * list Effect :=
  match unwrap r with
  | Some d => (setLoading false (setProjects (default [] d) st), [])
  | None =>
      (setLoading false st,
       [console_error "Error fetching projects:";
        toast {| title := "Erro";
                 description := "Não foi possível carregar os projetos.";
                 destructive := true |}])
  end.

(** A whole [fetchProjects]. *)
Definition fetchProjects (r : Settled (list Project.t)) (st : State)
  : State * list Effect :=
  let '(st', es) := fetchProjects_resume r st in (st', fetchProjects_call :: es).

(** [handleDelete] up to its [await]; [confirmed] is the answer of [confirm]. *)
Definition handleDelete_begin (confirmed : bool) (id : jsstring) : list Effect :=
  if confirmed then [store (delete_project id)] else [].

(** [handleDelete] from its [await] on.  [projects] is the list the
    handler closed over when it was created. *)
Definition handleDelete_resume {A} (projects : list Project.t) (id : jsstring)
    (r : Settled A) (st : State) : State * list Effect :=
  match unwrap r with
  | Some _ =>
      (setProjects (base.filter (fun p => Project.id p ≠ id) projects) st,
       [toast {| title := "Sucesso";
                 description := "Projeto excluído com sucesso!";
                 destructive := false |}])
  | None =>
      (st,
       [console_error "Error deleting project:";
        toast {| title := "Erro";
                 description := "Não foi possível excluir o projeto.";
                 destructive := true |}])
  end.

(** A whole [handleDelete] with nothing in between. *)
Definition handleDelete {A} (confirmed : bool) (id : jsstring) (r : Settled A)
    (st : State) : State * list Effect :=
  match handleDelete_begin confirmed id with
  | [] => (st, [])
  | es1 =>
      let '(st', es2) := handleDelete_resume (projects st) id r st in
      (st', es1 ++ es2)
  end.

End ProjectsManager.

(** ** Admin, the management page *)
Module AdminPage.
Import Store.

Record User := { id : jsstring; email : jsstring }.

(** What [useAuth()] returns. *)
Record AuthContext := { user : option User; loading : bool; isAdmin : bool }.

Inductive Manager := ProjectsManager | ArticlesManager.

Record TabsContent := { value : string; child : Manager }.

Inductive View :=
| LoadingWindow
| ControlPanel (logged_as : option jsstring) (defaultValue : string)
    (tabs : list TabsContent).

(** The element [Admin] returns. *)
Definition Admin (ctx : AuthContext) : View :=
  if loading ctx then LoadingWindow
  else ControlPanel (email <$> user ctx) "projects"
         [ {| value := "projects"; child := ProjectsManager |};
           {| value := "articles"; child := ArticlesManager |} ].

(** The body of [Admin]'s [useEffect]. *)
Definition Admin_effect (ctx : AuthContext) : list Effect :=
  if negb (loading ctx) && negb (bool_decide (is_Some (user ctx)))
  then [navigate "/auth"] else [].

(** The managers a view puts on screen: the content of the active tab. *)
Definition mounted_children (v : View) : list Manager :=
  match v with
  | LoadingWindow => []
  | ControlPanel _ active tabs =>
      child <$> base.filter (fun t => value t = active) tabs
  end.

(** The mount effect of a manager: [fetchProjects()], [fetchArticles()]. *)
Definition mount_effect (m : Manager) : list Effect :=
  match m with
  | ProjectsManager => [ProjectsManager.fetchProjects_call]
  | ArticlesManager => [store select_articles]
  end.

(** The effects of the commit that first shows [Admin ctx]: those of
    the children, then [Admin]'s own. *)
Definition commit (ctx : AuthContext) : list Effect :=
  concat (mount_effect <$> mounted_children (Admin ctx)) ++ Admin_effect ctx.

End AdminPage.

(** ** ArticlePage *)
Module ArticleRow.
Record t := mk
  { id : jsstring; title : jsstring; excerpt : jsstring;
    content : option jsstring; category : jsstring; read_time : jsstring;
    url : option jsstring; is_published : bool; sort_order : Z;
    created_at : jsstring; updated_at : jsstring }.
End ArticleRow.

Module Article.
Record t := mk
  { id : jsstring; title : jsstring; excerpt : jsstring;
    content : option jsstring; category : jsstring; read_time : jsstring;
    created_at : jsstring }.
End Article.

Module ArticlePage.
Import Store.

Record State := { article : option Article.t; loading : bool }.

Definition initial : State := {| article := None; loading := true |}.

(** [.select('id, title, excerpt, content, category, read_time, created_at')] *)
Definition select (r : ArticleRow.t) : Article.t :=
  Article.mk (ArticleRow.id r) (ArticleRow.title r) (ArticleRow.excerpt r)
    (ArticleRow.content r) (ArticleRow.category r) (ArticleRow.read_time r)
    (ArticleRow.created_at r).

(** [.from('articles').select(..).eq('id', id).eq('is_published', true)]
    over the rows the store lets the caller read. *)
Definition query (rows : list ArticleRow.t) (id : jsstring) : list Article.t :=
  select <$>
    base.filter (fun r => ArticleRow.is_published r = true)
      (base.filter (fun r => ArticleRow.id r = id) rows).

(** [.maybeSingle()]: no row is [null] without error, one row is that
    row, more rows are an error. *)
Definition maybeSingle {A} (rs : list A) : Settled A :=
  match rs with
  | [] => ok_null
  | [r] => ok r
  | _ => failed {| pg_code := "PGRST116";
                   pg_message := "JSON object requested, multiple (or no) rows returned" |}
  end.

(** [fetchArticle] from its [await] on. *)
Definition fetchArticle_resume (r : Settled Article.t) (st : State)
  : State * list Effect :=
  match unwrap r with
  | Some d => ({| article := d; loading := false |}, [])
  | None =>
      ({| article := article st; loading := false |},
       [console_error "Error fetching article:"])
  end.

(** A whole [fetchArticle] against a store holding [rows]; [id] is the
    route parameter. *)
Definition fetchArticle (rows : list ArticleRow.t) (id : option jsstring)
    (st : State) : State * list Effect :=
  match id with
  | None => (st, [])
  | Some i =>
      if truthy i then
        let '(st', es) := fetchArticle_resume (maybeSingle (query rows i)) st in
        (st', store (select_article i) :: es)
      else (st, [])
  end.

Inductive View :=
| LoadingWindow
| NotFound
| ArticleView (a : Article.t).

(** The three returns of the component. *)
Definition render (st : State) : View :=
  if loading st then LoadingWindow
  else match article st with
       | None => NotFound
       | Some a => ArticleView a
       end.

End ArticlePage.

(** ** Source text and string helpers used by the other components *)
Module JSText.

(** The UTF-16 code units of a code point. *)
Definition units (cp : N) : jsstring :=
  (if cp <? 65536 then [cp]
   else [55296 + (cp - 65536) / 1024; 56320 + (cp - 65536) mod 1024])%N.

(** UTF-8 bytes to UTF-16 code units; [pending] continuation bytes are
    still to come for the code point accumulated in [acc]. *)
Fixpoint decode (bs : list N) (pending : nat) (acc : N) : jsstring :=
  match bs with
  | [] => []
  | b :: r =>
      match pending with
      | 0 =>
          (if b <? 128 then units b ++ decode r 0 0
           else if b <? 224 then decode r 1 (b - 192)
           else if b <? 240 then decode r 2 (b - 224)
           else decode r 3 (b - 240))%N
      | S k =>
          let acc' := (acc * 64 + (b - 128))%N in
          match k with
          | 0 => units acc' ++ decode r 0 0%N
          | _ => decode r k acc'
          end
      end
  end.

(** A source literal, as the string the engine holds. *)
Definition utf16 (s : string) : jsstring :=
  decode (map Ascii.N_of_ascii (String.list_ascii_of_string s)) 0 0%N.

(** [s || d] on strings. *)
Definition or_else (s d : jsstring) : jsstring := if truthy s then s else d.

(** [n || d] on integers. *)
Definition num_or (n d : Z) : Z := if (n =? 0)%Z then d else n.

Fixpoint starts_with (p s : jsstring) : bool :=
  match p, s with
  | [], _ => true
  | _ :: _, [] => false
  | a :: p', b :: s' => (a =? b)%N && starts_with p' s'
  end.

(** [s.includes(sub)] *)
Fixpoint includes (s sub : jsstring) : bool :=
  starts_with sub s
  || match s with [] => false | _ :: r => includes r sub end.

(** [s.replace(/\s+/g, '_')]: every maximal run of white space becomes
    one underscore; [in_run] tells that the previous unit was white. *)
Fixpoint replace_spaces (in_run : bool) (s : jsstring) : jsstring :=
  match s with
  | [] => []
  | c :: r =>
      if is_white_space c
      then (if in_run then replace_spaces true r else 95%N :: replace_spaces true r)
      else c :: replace_spaces false r
  end.

End JSText.

(** ** ProjectForm: the form state *)
Module ProjectFormState.
Import JSText.

Definition folder_icon : jsstring := utf16 "📁".

(** The initializer of [formData]. *)
Definition formData_init (project : option Project.t) : FormData.t :=
  match project with
  | None => FormData.mk [] [] folder_icon [] [] [] 0%Z true
  | Some p =>
      FormData.mk (or_else (Project.title p) [])
        (or_else (Project.description p) [])
        (or_else (Project.icon p) folder_icon)
        (or_else (join (lit ", ") (Project.technologies p)) [])
        (or_else (default [] (Project.demo_url p)) [])
        (or_else (default [] (Project.repo_url p)) [])
        (num_or (Project.sort_order p) 0%Z)
        (Project.is_published p)
  end.

(** A call of [handleChange(field, value)], one constructor per input. *)
Inductive FieldChange :=
| change_title (v : jsstring)
| change_description (v : jsstring)
| change_icon (v : jsstring)
| change_technologies (v : jsstring)
| change_demo_url (v : jsstring)
| change_repo_url (v : jsstring)
| change_sort_order (v : Z)
| change_is_published (v : bool).

Definition field (c : FieldChange) : string :=
  match c with
  | change_title _ => "title"
  | change_description _ => "description"
  | change_icon _ => "icon"
  | change_technologies _ => "technologies"
  | change_demo_url _ => "demo_url"
  | change_repo_url _ => "repo_url"
  | change_sort_order _ => "sort_order"
  | change_is_published _ => "is_published"
  end.

(** [{ ...prev, [field]: value }] *)
Definition assign (c : FieldChange) (d : FormData.t) : FormData.t :=
  match c with
  | change_title v =>
      FormData.mk v (FormData.description d) (FormData.icon d)
        (FormData.technologies d) (FormData.demo_url d) (FormData.repo_url d)
        (FormData.sort_order d) (FormData.is_published d)
  | change_description v =>
      FormData.mk (FormData.title d) v (FormData.icon d)
        (FormData.technologies d) (FormData.demo_url d) (FormData.repo_url d)
        (FormData.sort_order d) (FormData.is_published d)
  | change_icon v =>
      FormData.mk (FormData.title d) (FormData.description d) v
        (FormData.technologies d) (FormData.demo_url d) (FormData.repo_url d)
        (FormData.sort_order d) (FormData.is_published d)
  | change_technologies v =>
      FormData.mk (FormData.title d) (FormData.description d) (FormData.icon d)
        v (FormData.demo_url d) (FormData.repo_url d)
        (FormData.sort_order d) (FormData.is_published d)
  | change_demo_url v =>
      FormData.mk (FormData.title d) (FormData.description d) (FormData.icon d)
        (FormData.technologies d) v (FormData.repo_url d)
        (FormData.sort_order d) (FormData.is_published d)
  | change_repo_url v =>
      FormData.mk (FormData.title d) (FormData.description d) (FormData.icon d)
        (FormData.technologies d) (FormData.demo_url d) v
        (FormData.sort_order d) (FormData.is_published d)
  | change_sort_order v =>
      FormData.mk (FormData.title d) (FormData.description d) (FormData.icon d)
        (FormData.technologies d) (FormData.demo_url d) (FormData.repo_url d)
        v (FormData.is_published d)
  | change_is_published v =>
      FormData.mk (FormData.title d) (FormData.description d) (FormData.icon d)
        (FormData.technologies d) (FormData.demo_url d) (FormData.repo_url d)
        (FormData.sort_order d) v
  end.

(** [errors[field]] as a condition: present and not the empty string. *)
Definition shown (errors : gmap string string) (f : string) : bool :=
  match errors !! f with
  | Some m => negb (String.eqb m "")
  | None => false
  end.

(** [handleChange] *)
Definition handleChange (c : FieldChange)
    (st : FormData.t * gmap string string) : FormData.t * gmap string string :=
  (assign c st.1,
   if shown st.2 (field c) then <[field c := ""]> st.2 else st.2).

End ProjectFormState.

(** ** ProjectsManager: saving *)

(** [Partial<Project>] as [handleSave] reads it: [None] is a field left
    out; for the two links the inner [None] is [null]. *)
Module PartialProject.
Record t := mk
  { title : option jsstring; description : option jsstring;
    technologies : option (list jsstring); icon : option jsstring;
    demo_url : option (option jsstring); repo_url : option (option jsstring);
    sort_order : option Z; is_published : option bool }.
End PartialProject.

(** [newProject], the row handed to [insert]. *)
Module NewProject.
Record t := mk
  { title : jsstring; description : jsstring;
    technologies : list jsstring; icon : jsstring;
    demo_url : option (option jsstring); repo_url : option (option jsstring);
    sort_order : Z; is_published : bool }.
End NewProject.

Module ProjectsManagerSave.
Import Store JSText ProjectsManager.


Inductive Mutation :=
| update_project (id : jsstring) (patch : PartialProject.t)
| insert_project (row : NewProject.t).

Definition setEditingProject (e : option Project.t) (st : State) : State :=
  {| projects := projects st; loading := loading st;
     editingProject := e; isCreating := isCreating st |}.

Definition setIsCreating (b : bool) (st : State) : State :=
  {| projects := projects st; loading := loading st;
     editingProject := editingProject st; isCreating := b |}.

(** The "Create new" object of [handleSave]. *)
Definition newProject (project : PartialProject.t) : NewProject.t :=
  NewProject.mk
    (or_else (default [] (PartialProject.title project)) [])
    (or_else (default [] (PartialProject.description project)) [])
    (default [] (PartialProject.technologies project))
    (or_else (default [] (PartialProject.icon project)) ProjectFormState.folder_icon)
    (PartialProject.demo_url project)
    (PartialProject.repo_url project)
    (num_or (default 0%Z (PartialProject.sort_order project)) 0%Z)
    (default true (PartialProject.is_published project)).

(** [handleSave] up to its [await]: the one mutation it issues. *)
Definition handleSave_begin (project : PartialProject.t) (st : State) : Mutation :=
  match editingProject st with
  | Some e => update_project (Project.id e) project
  | None => insert_project (newProject project)
  end.

(** [handleSave] from its [await] on; [updating] tells which branch
    issued the mutation. *)
Definition handleSave_resume {A} (updating : bool) (r : Settled A) (st : State)
  : State * list Effect :=
  match unwrap r with
  | Some _ =>
      (setIsCreating false (setEditingProject None st),
       [toast {| title := "Sucesso";
                 description := if updating then "Projeto atualizado com sucesso!"
                                else "Projeto criado com sucesso!";
                 destructive := false |};
        fetchProjects_call])
  | None =>
      (st,
       [console_error "Error saving project:";
        toast {| title := "Erro";
                 description := "Não foi possível salvar o projeto.";
                 destructive := true |}])
  end.

(** A whole [handleSave] and, when it refetches, the [fetchProjects] it
    starts, with nothing in between: [rm] answers the mutation and [rf]
    the refetch. *)
Definition handleSave {A} (project : PartialProject.t) (rm : Settled A)
    (rf : Settled (list Project.t)) (st : State)
  : Mutation * State * list Effect :=
  let m := handleSave_begin project st in
  let '(st1, es1) :=
    handleSave_resume (bool_decide (is_Some (editingProject st))) rm st in
  match store_calls es1 with
  | [] => (m, st1, es1)
  | _ => let '(st2, es2) := fetchProjects_resume rf st1 in (m, st2, es1 ++ es2)
  end.

End ProjectsManagerSave.

(** ** ArticleForm *)
Module ArticleFormData.
Record t := mk
  { title : jsstring; excerpt : jsstring; content : jsstring;
    category : jsstring; read_time : jsstring; url : jsstring;
    sort_order : Z; is_published : bool }.
End ArticleFormData.

(** [dataToValidate] of the article form. *)
Module ArticleDraft.
Record t := mk
  { title : jsstring; excerpt : jsstring; content : option jsstring;
    category : jsstring; read_time : jsstring; url : option jsstring;
    sort_order : Z; is_published : bool }.
End ArticleDraft.

(** The object the article form hands to [onSave]. *)
Module ArticlePayload.
Record t := mk
  { title : jsstring; excerpt : jsstring; content : option jsstring;
    category : jsstring; read_time : jsstring; url : option jsstring;
    sort_order : Z; is_published : bool }.
End ArticlePayload.

Module ArticleForm.
Import JSText.

Definition CATEGORIES : list jsstring :=
  [utf16 "Desenvolvimento"; utf16 "DevOps"; utf16 "Frontend"; utf16 "Backend";
   utf16 "Mobile"; utf16 "IA"; utf16 "Carreira"; utf16 "Geral"].

Section WithUrl.
Variable is_url : jsstring → bool.

Definition articleSchema_issues (d : ArticleDraft.t) : list ZodIssue :=
  at_path "title"
    (ZodString_parse
       [min_check 1 "Título é obrigatório";
        max_check 200 "String must contain at most 200 character(s)"]
       (ArticleDraft.title d)).2
  ++ at_path "excerpt"
    (ZodString_parse
       [min_check 1 "Resumo é obrigatório";
        max_check 500 "String must contain at most 500 character(s)"]
       (ArticleDraft.excerpt d)).2
  ++ at_path "category"
    (ZodString_parse [min_check 1 "Categoria é obrigatória"]
       (ArticleDraft.category d)).2
  ++ at_path "read_time"
    (ZodString_parse [min_check 1 "Tempo de leitura é obrigatório"]
       (ArticleDraft.read_time d)).2
  ++ at_path "url" (ProjectForm.url_or_empty_parse is_url (ArticleDraft.url d))
  ++ at_path "sort_order" (ProjectForm.sort_order_parse (ArticleDraft.sort_order d)).

Definition articleSchema_safeParse (d : ArticleDraft.t) : SafeParse ArticleDraft.t :=
  finish d (articleSchema_issues d).

Definition dataToValidate (formData : ArticleFormData.t) : ArticleDraft.t :=
  ArticleDraft.mk (ArticleFormData.title formData)
    (ArticleFormData.excerpt formData)
    (ProjectForm.or_none (ArticleFormData.content formData))
    (ArticleFormData.category formData) (ArticleFormData.read_time formData)
    (ProjectForm.or_none (ArticleFormData.url formData))
    (ArticleFormData.sort_order formData) (ArticleFormData.is_published formData).

(** [handleSubmit] of the article form. *)
Definition handleSubmit (formData : ArticleFormData.t) (errors : gmap string string)
  : gmap string string * option ArticlePayload.t :=
  match articleSchema_safeParse (dataToValidate formData) with
  | failure es => (collect_errors es, None)
  | success _ =>
      (errors,
       Some (ArticlePayload.mk (ArticleFormData.title formData)
               (ArticleFormData.excerpt formData)
               (ProjectForm.or_none (ArticleFormData.content formData))
               (ArticleFormData.category formData)
               (ArticleFormData.read_time formData)
               (ProjectForm.or_none (ArticleFormData.url formData))
               (ArticleFormData.sort_order formData)
               (ArticleFormData.is_published formData)))
  end.

End WithUrl.
End ArticleForm.

(** ** Auth, the sign-in page *)
Module AuthPage.
Import JSText.

(** What the [error] state holds: a text of the page, or the message
    of the auth client as it came. *)
Inductive ErrorText :=
| fixed (s : string)
| raw (m : jsstring).

Record State :=
  { isLogin : bool; email : jsstring; password : jsstring;
    error : option ErrorText; loading : bool }.

Definition initial : State :=
  {| isLogin := true; email := []; password := []; error := None;
     loading := false |}.

Definition setError (e : option ErrorText) (st : State) : State :=
  {| isLogin := isLogin st; email := email st; password := password st;
     error := e; loading := loading st |}.

Definition setLoading (b : bool) (st : State) : State :=
  {| isLogin := isLogin st; email := email st; password := password st;
     error := error st; loading := b |}.

Definition setIsLogin (b : bool) (st : State) : State :=
  {| isLogin := b; email := email st; password := password st;
     error := error st; loading := loading st |}.

(** The calls to the auth hook. *)
Inductive AuthCall :=
| signIn (email password : jsstring)
| signUp (email password : jsstring).

(** What an awaited auth call gives: [{ error }], or it throws. *)
Inductive AuthSettled :=
| answered (error_message : option jsstring)
| threw.

Section WithEmail.

(** zod's test for an email address is a regular expression of the
    library; it is a parameter here. *)
Variable is_email : jsstring → bool.

Definition authSchema_issues (e p : jsstring) : list ZodIssue :=
  at_path "email" (if is_email e then [] else ["Email inválido"])
  ++ at_path "password"
       (ZodString_parse [min_check 6 "Senha deve ter no mínimo 6 caracteres"] p).2.

(** [handleSubmit] up to its [await]. *)
Definition handleSubmit_begin (st : State) : State * option AuthCall :=
  let st := setLoading true (setError None st) in
  match authSchema_issues (email st) (password st) with
  | i :: _ => (setLoading false (setError (Some (fixed (message i))) st), None)
  | [] =>
      (st, Some (if isLogin st then signIn (email st) (password st)
                 else signUp (email st) (password st)))
  end.

End WithEmail.

(** [handleSubmit] from its [await] on; [call] is the call awaited. *)
Definition handleSubmit_resume (call : AuthCall) (r : AuthSettled) (st : State)
  : State :=
  setLoading false
    match r, call with
    | threw, _ => setError (Some (fixed "Erro ao processar requisição.")) st
    | answered (Some m), signIn _ _ =>
        setError
          (Some (if decide (m = lit "Invalid login credentials")
                 then fixed "Credenciais inválidas. Verifique seu email e senha."
                 else raw m)) st
    | answered None, signIn _ _ => st
    | answered (Some m), signUp _ _ =>
        setError
          (Some (if includes m (lit "already registered")
                 then fixed "Este email já está cadastrado."
                 else raw m)) st
    | answered None, signUp _ _ => setIsLogin true (setError None st)
    end.

(** A whole [handleSubmit] with nothing in between. *)
Definition handleSubmit (is_email : jsstring → bool) (r : AuthSettled) (st : State)
  : State * option AuthCall :=
  match handleSubmit_begin is_email st with
  | (st1, Some call) => (handleSubmit_resume call r st1, Some call)
  | (st1, None) => (st1, None)
  end.

(** The body of the page's [useEffect]. *)
Definition Auth_effect (ctx : AdminPage.AuthContext) : list Effect :=
  if bool_decide (is_Some (AdminPage.user ctx)) then [navigate "/admin"] else [].

End AuthPage.

(** ** The public lists: ArticlesSection and ProjectsSection *)
Module PublicList.
Import Store.

(** Both sections keep the same two pieces of state. *)
Record State (A : Type) := { items : list A; loading : bool }.
Arguments items {A} _.
Arguments loading {A} _.

(** The fetch of either section from its [await] on:
    [if (!error && data && data.length > 0) set(data)]. *)
Definition fetch_resume {A} (label : string) (r : Settled (list A)) (st : State A)
  : State A * list Effect :=
  match r with
  | fulfilled {| data := Some (d :: ds); error := None |} =>
      ({| items := d :: ds; loading := false |}, [])
  | fulfilled _ => ({| items := items st; loading := false |}, [])
  | rejected => ({| items := items st; loading := false |}, [console_error label])
  end.

End PublicList.

Module ArticleItem.
Record t := mk
  { id : jsstring; title : jsstring; excerpt : jsstring; created_at : jsstring;
    read_time : jsstring; category : jsstring; url : option jsstring }.
End ArticleItem.

Module ArticlesSection.
Import JSText.

Definition FALLBACK_ARTICLES : list ArticleItem.t :=
  [ ArticleItem.mk (utf16 "art-1") (utf16 "Princípios SOLID no Frontend Moderno")
      (utf16 "Como aplicar os princípios SOLID em aplicações React para código mais limpo e manutenível.")
      (utf16 "2024-01-15") (utf16 "8 min") (utf16 "Arquitetura") (Some (utf16 "#"));
    ArticleItem.mk (utf16 "art-2") (utf16 "TypeScript: Além do Básico")
      (utf16 "Explorando recursos avançados do TypeScript que vão transformar seu código.")
      (utf16 "2024-01-08") (utf16 "12 min") (utf16 "TypeScript") (Some (utf16 "#")) ].

Definition initial : PublicList.State ArticleItem.t :=
  {| PublicList.items := FALLBACK_ARTICLES; PublicList.loading := true |}.

Definition fetchArticles_resume :=
  PublicList.fetch_resume (A:=ArticleItem.t) "Error fetching articles:".

(** [[0-9a-f]] under the [i] flag. *)
Definition is_hex (c : N) : bool :=
  ((48 <=? c) && (c <=? 57) || (97 <=? c) && (c <=? 102)
   || (65 <=? c) && (c <=? 70))%N.

(** [n] hex digits, then the rest of the string. *)
Fixpoint hex_group (n : nat) (s : jsstring) : option jsstring :=
  match n with
  | 0 => Some s
  | S k => match s with
           | c :: r => if is_hex c then hex_group k r else None
           | [] => None
           end
  end.

Definition dash (s : jsstring) : option jsstring :=
  match s with
  | 45%N :: r => Some r
  | _ => None
  end.

(** The test of the UUID pattern, anchored at both ends. *)
Definition isDbArticle (id : jsstring) : bool :=
  match ((((((((hex_group 8 id ≫= dash) ≫= hex_group 4) ≫= dash)
              ≫= hex_group 4) ≫= dash) ≫= hex_group 4) ≫= dash)
           ≫= hex_group 12) with
  | Some [] => true
  | _ => false
  end.

(** [href] of a row. *)
Definition href (article : ArticleItem.t) : jsstring :=
  if isDbArticle (ArticleItem.id article)
  then lit "/artigo/" ++ ArticleItem.id article
  else or_else (default [] (ArticleItem.url article)) (lit "#").

End ArticlesSection.

(** A run of [n] hex digits. *)
Definition hex_run (n : nat) (g : jsstring) : Prop :=
  length g = n ∧ Forall (fun c => ArticlesSection.is_hex c = true) g.

(** Strings without white space, and strings of white space only. *)
Definition no_white (s : jsstring) : Prop :=
  Forall (fun c => is_white_space c = false) s.

Definition all_white (s : jsstring) : Prop :=
  Forall (fun c => is_white_space c = true) s.

(** What a run of white space leaves in a window title: nothing when
    the run is empty, one underscore otherwise. *)
Definition underscore_for (run : jsstring) : jsstring :=
  match run with [] => [] | _ => [95%N] end.

(** A title read as a run of white space followed by words, each with
    the run of white space after it. *)
Definition words_and_runs (lead : jsstring) (pairs : list (jsstring * jsstring))
  : jsstring :=
  lead ++ concat ((fun p => p.1 ++ p.2) <$> pairs).

Definition well_cut (lead : jsstring) (pairs : list (jsstring * jsstring)) : Prop :=
  all_white lead
  ∧ Forall (fun p => no_white p.1 ∧ p.1 ≠ [] ∧ all_white p.2) pairs.

(** ** ArticlePage: the window title *)
Module ArticleWindow.
Import JSText.

Definition window_title (a : Article.t) : jsstring :=
  lit "C:\Artigos\" ++ replace_spaces false (Article.title a) ++ lit ".txt".

End ArticleWindow.

(** ** RetroWindow *)
Module RetroWindow.

Record State :=
  { isMinimized : bool; isMaximized : bool; isShaking : bool;
    showErrorDialog : bool }.

Definition initial : State :=
  {| isMinimized := false; isMaximized := false; isShaking := false;
     showErrorDialog := false |}.

Definition handleMinimize (st : State) : State :=
  {| isMinimized := negb (isMinimized st);
     isMaximized := if isMaximized st then false else isMaximized st;
     isShaking := isShaking st; showErrorDialog := showErrorDialog st |}.

Definition handleMaximize (st : State) : State :=
  {| isMinimized := if isMinimized st then false else isMinimized st;
     isMaximized := negb (isMaximized st);
     isShaking := isShaking st; showErrorDialog := showErrorDialog st |}.

(** [handleClose] up to its timer. *)
Definition handleClose (st : State) : State :=
  {| isMinimized := isMinimized st; isMaximized := isMaximized st;
     isShaking := true; showErrorDialog := showErrorDialog st |}.

(** The callback of the timer of [handleClose]. *)
Definition handleClose_timeout (st : State) : State :=
  {| isMinimized := isMinimized st; isMaximized := isMaximized st;
     isShaking := false; showErrorDialog := true |}.

(** [onOpenChange] of the dialog. *)
Definition setShowErrorDialog (b : bool) (st : State) : State :=
  {| isMinimized := isMinimized st; isMaximized := isMaximized st;
     isShaking := isShaking st; showErrorDialog := b |}.

Inductive Event :=
| minimize | maximize | close | timeout | dialog (open : bool).

Definition step (st : State) (ev : Event) : State :=
  match ev with
  | minimize => handleMinimize st
  | maximize => handleMaximize st
  | close => handleClose st
  | timeout => handleClose_timeout st
  | dialog b => setShowErrorDialog b st
  end.

End RetroWindow.

(** * Properties *)

(** ** Strings *)
Section JSFacts.
Implicit Types (s t : jsstring) (c : N).

Lemma trimStart_split s :
  ∃ p, s = p ++ trimStart s ∧ Forall (fun c => is_white_space c = true) p.
Proof.
  induction s as [|c r [p [Hr Hp]]]; simpl.
  - by exists [].
  - destruct (is_white_space c) eqn:Hc.
    + exists (c :: p). split; [simpl; congruence | by constructor].
    + by exists [].
Qed.

Lemma trimStart_head s c r : trimStart s = c :: r → is_white_space c = false.
Proof.
  induction s as [|d u IH]; simpl; [done|].
  destruct (is_white_space d) eqn:Hd; [done|].
  intros [= -> _]. done.
Qed.

Lemma trimStart_fixed c r : is_white_space c = false → trimStart (c :: r) = c :: r.
Proof. intros H. simpl. by rewrite H. Qed.

Lemma trimStart_idemp s : trimStart (trimStart s) = trimStart s.
Proof.
  destruct (trimStart s) as [|c r] eqn:E; [done|].
  apply trimStart_fixed. by eapply trimStart_head.
Qed.

Lemma trimEnd_split s : ∃ q, s = trimEnd s ++ q.
Proof.
  unfold trimEnd. destruct (trimStart_split (rev s)) as [p [Hp _]].
  exists (rev p). rewrite <- rev_app_distr, <- Hp. by rewrite rev_involutive.
Qed.

Lemma trimEnd_idemp s : trimEnd (trimEnd s) = trimEnd s.
Proof. unfold trimEnd. by rewrite rev_involutive, trimStart_idemp. Qed.

(** Trimming keeps a contiguous piece of the string. *)
Lemma trim_infix s : ∃ p q, s = p ++ trim s ++ q.
Proof.
  unfold trim. destruct (trimStart_split s) as [p [Hp _]].
  destruct (trimEnd_split (trimStart s)) as [q Hq].
  exists p, q. by rewrite <- Hq.
Qed.

Lemma trim_elem_of c s : c ∈ trim s → c ∈ s.
Proof.
  destruct (trim_infix s) as (p & q & E). intros H.
  rewrite E. set_solver.
Qed.

Lemma trim_idemp s : trim (trim s) = trim s.
Proof.
  unfold trim at 2 3. unfold trim.
  destruct (trimEnd (trimStart s)) as [|c r] eqn:E; [done|].
  rewrite trimStart_fixed.
  - by rewrite <- E, trimEnd_idemp.
  - destruct (trimEnd_split (trimStart s)) as [q Hq].
    rewrite E in Hq. simpl in Hq. by eapply trimStart_head.
Qed.

Lemma split_nonempty sep s : split sep s ≠ [].
Proof. destruct s as [|c r]; simpl; [done|]. by repeat case_match. Qed.

(** Joining the pieces with the separator gives the string back. *)
Lemma join_split sep s : join [sep] (split sep s) = s.
Proof.
  induction s as [|c r IH]; [done|]. simpl.
  destruct (N.eqb_spec c sep) as [->|Hne].
  - pose proof (split_nonempty sep r).
    destruct (split sep r) as [|t ts] eqn:E; [done|].
    simpl in *. by rewrite IH.
  - destruct (split sep r) as [|t ts] eqn:E; [by destruct (split_nonempty sep r)|].
    destruct ts; simpl in *; by rewrite <- IH.
Qed.

(** No piece contains the separator. *)
Lemma split_no_sep sep s : Forall (fun t => sep ∉ t) (split sep s).
Proof.
  induction s as [|c r IH]; simpl.
  - constructor; [apply not_elem_of_nil | constructor].
  - destruct (N.eqb_spec c sep) as [->|Hne].
    + constructor; [apply not_elem_of_nil | done].
    + destruct (split sep r) as [|t ts].
      * constructor; [|constructor].
        apply not_elem_of_cons. split; [done | apply not_elem_of_nil].
      * inversion IH; subst. constructor; [|done].
        apply not_elem_of_cons. by split.
Qed.

End JSFacts.

(** ** Schemas *)
Section ZodFacts.

Lemma author_name_parse s :
  ZodString_parse author_name_checks s =
  (trim s,
   (if length (trim s) <? 2 then ["Nome deve ter no mínimo 2 caracteres"] else [])
   ++ (if 50 <? length (trim s) then ["Nome muito longo"] else [])).
Proof. unfold author_name_checks. simpl. by repeat case_match. Qed.

Lemma content_parse s :
  ZodString_parse content_checks s =
  (trim s,
   (if length (trim s) <? 5 then ["Comentário deve ter no mínimo 5 caracteres"] else [])
   ++ (if 1000 <? length (trim s) then ["Comentário muito longo"] else [])).
Proof. unfold content_checks. simpl. by repeat case_match. Qed.

Lemma collect_errors_snoc es e :
  collect_errors (es ++ [e]) = <[path e := message e]> (collect_errors es).
Proof. unfold collect_errors. by rewrite foldl_app. Qed.

(** The error object maps a field to the message of its last issue. *)
Lemma collect_errors_lookup es f :
  collect_errors es !! f =
  message <$> last (base.filter (fun i => path i = f) es).
Proof.
  induction es as [|e es IH] using rev_ind; [done|].
  rewrite collect_errors_snoc, filter_app, filter_cons, filter_nil.
  destruct (decide (path e = f)) as [<-|Hne].
  - by rewrite lookup_insert_eq, last_snoc.
  - by rewrite lookup_insert_ne, app_nil_r.
Qed.

End ZodFacts.

Section CommentSchemaFacts.
Implicit Types (a c : jsstring).

Lemma issues_finish {A} (v : A) es : issues (finish v es) = es.
Proof. by destruct es. Qed.

Lemma is_success_finish {A} (v : A) es :
  is_success (finish v es) = true ↔ es = [].
Proof. by destruct es. Qed.

Lemma is_success_issues {A} (r : SafeParse A) :
  is_success r = false → issues r ≠ [] → ∃ es, r = failure es.
Proof. destruct r; [done | eauto]. Qed.

Lemma commentSchema_issues a c :
  issues (commentSchema_safeParse (CommentInput.mk a c)) =
  at_path "author_name"
    ((if length (trim a) <? 2 then ["Nome deve ter no mínimo 2 caracteres"] else [])
     ++ (if 50 <? length (trim a) then ["Nome muito longo"] else []))
  ++ at_path "content"
    ((if length (trim c) <? 5 then ["Comentário deve ter no mínimo 5 caracteres"] else [])
     ++ (if 1000 <? length (trim c) then ["Comentário muito longo"] else [])).
Proof.
  unfold commentSchema_safeParse.
  cbn [CommentInput.author_name CommentInput.content].
  rewrite author_name_parse, content_parse. by rewrite issues_finish.
Qed.

Lemma commentSchema_success_data a c v :
  commentSchema_safeParse (CommentInput.mk a c) = success v →
  v = CommentInput.mk (trim a) (trim c).
Proof.
  unfold commentSchema_safeParse.
  cbn [CommentInput.author_name CommentInput.content].
  rewrite author_name_parse, content_parse. unfold finish.
  case_match; [by intros [= <-] | done].
Qed.

(** [author_name] passes exactly in the closed range 2..50. *)
Lemma author_name_issues a c :
  issues_at "author_name" (commentSchema_safeParse (CommentInput.mk a c)) = []
  ↔ 2 ≤ length (trim a) ≤ 50.
Proof.
  unfold issues_at. rewrite commentSchema_issues.
  destruct (Nat.ltb_spec (length (trim a)) 2), (Nat.ltb_spec 50 (length (trim a))),
    (Nat.ltb_spec (length (trim c)) 5), (Nat.ltb_spec 1000 (length (trim c)));
    (split; [intros E; try lia; by vm_compute in E | intros; try lia; by vm_compute]).
Qed.

(** [content] passes exactly in the closed range 5..1000. *)
Lemma content_issues a c :
  issues_at "content" (commentSchema_safeParse (CommentInput.mk a c)) = []
  ↔ 5 ≤ length (trim c) ≤ 1000.
Proof.
  unfold issues_at. rewrite commentSchema_issues.
  destruct (Nat.ltb_spec (length (trim a)) 2), (Nat.ltb_spec 50 (length (trim a))),
    (Nat.ltb_spec (length (trim c)) 5), (Nat.ltb_spec 1000 (length (trim c)));
    (split; [intros E; try lia; by vm_compute in E | intros; try lia; by vm_compute]).
Qed.

Lemma commentSchema_success a c :
  is_success (commentSchema_safeParse (CommentInput.mk a c)) = true
  ↔ 2 ≤ length (trim a) ≤ 50 ∧ 5 ≤ length (trim c) ≤ 1000.
Proof.
  unfold commentSchema_safeParse.
  cbn [CommentInput.author_name CommentInput.content].
  rewrite author_name_parse, content_parse, is_success_finish.
  destruct (Nat.ltb_spec (length (trim a)) 2), (Nat.ltb_spec 50 (length (trim a))),
    (Nat.ltb_spec (length (trim c)) 5), (Nat.ltb_spec 1000 (length (trim c)));
    (split; [intros E; try lia; by vm_compute in E | intros; try lia; by vm_compute]).
Qed.

(** No field of the comment schema ever carries two issues. *)
Lemma commentSchema_one_issue_per_field a c f :
  length (issues_at f (commentSchema_safeParse (CommentInput.mk a c))) ≤ 1.
Proof.
  unfold issues_at. rewrite commentSchema_issues.
  destruct (Nat.ltb_spec (length (trim a)) 2), (Nat.ltb_spec 50 (length (trim a))),
    (Nat.ltb_spec (length (trim c)) 5), (Nat.ltb_spec 1000 (length (trim c)));
    try lia; simpl; rewrite ?filter_cons, ?filter_nil;
    repeat case_decide; simplify_eq; simpl; lia.
Qed.

End CommentSchemaFacts.

(** ** The comment validator *)

(** C3.  For every input pair, a trimmed [author_name] of length 2 or 50
    passes and one of length 1 or 51 is rejected; a trimmed [content]
    shorter than 5 or longer than 1000 is rejected and one of length 5
    to 1000 passes; the parse succeeds exactly when both fields are in
    range. *)
Theorem commentSchema_boundaries (a c : jsstring) :
  let r := commentSchema_safeParse (CommentInput.mk a c) in
  (length (trim a) = 2 ∨ length (trim a) = 50 → issues_at "author_name" r = [])
  ∧ (length (trim a) = 1 ∨ length (trim a) = 51 →
     issues_at "author_name" r ≠ [] ∧ is_success r = false)
  ∧ (length (trim c) < 5 ∨ 1000 < length (trim c) →
     issues_at "content" r ≠ [] ∧ is_success r = false)
  ∧ (5 ≤ length (trim c) ≤ 1000 → issues_at "content" r = [])
  ∧ (is_success r = true ↔
     2 ≤ length (trim a) ≤ 50 ∧ 5 ≤ length (trim c) ≤ 1000).
Proof.
  intros r. subst r.
  pose proof (author_name_issues a c) as Ha.
  pose proof (content_issues a c) as Hc.
  pose proof (commentSchema_success a c) as Hs.
  split_and!.
  - intros. apply Ha. lia.
  - intros ?. split.
    + intros E. apply Ha in E. lia.
    + apply not_true_is_false. intros E. apply Hs in E. lia.
  - intros ?. split.
    + intros E. apply Hc in E. lia.
    + apply not_true_is_false. intros E. apply Hs in E. lia.
  - intros. apply Hc. lia.
  - exact Hs.
Qed.

Lemma commentSchema_boundaries_witness :
  issues_at "author_name"
    (commentSchema_safeParse (CommentInput.mk (lit " Jo ") (lit "Hello!"))) = []
  ∧ issues_at "author_name"
    (commentSchema_safeParse
       (CommentInput.mk (replicate 50 97%N) (lit "Hello!"))) = []
  ∧ is_success
      (commentSchema_safeParse (CommentInput.mk (lit "J ") (lit "Hello!"))) = false
  ∧ is_success
      (commentSchema_safeParse
         (CommentInput.mk (replicate 51 97%N) (lit "Hello!"))) = false
  ∧ is_success
      (commentSchema_safeParse (CommentInput.mk (lit "Jo") (lit " Hiya "))) = false
  ∧ is_success
      (commentSchema_safeParse
         (CommentInput.mk (lit "Jo") (replicate 1001 97%N))) = false
  ∧ issues_at "content"
      (commentSchema_safeParse
         (CommentInput.mk (lit "Jo") (replicate 1000 97%N))) = [].
Proof.
  split_and!.
  - destruct (commentSchema_boundaries (lit " Jo ") (lit "Hello!")) as (H & _).
    apply H. left. reflexivity.
  - destruct (commentSchema_boundaries (replicate 50 97%N) (lit "Hello!")) as (H & _).
    apply H. right. reflexivity.
  - destruct (commentSchema_boundaries (lit "J ") (lit "Hello!")) as (_ & H & _).
    apply H. left. reflexivity.
  - destruct (commentSchema_boundaries (replicate 51 97%N) (lit "Hello!"))
      as (_ & H & _).
    apply H. right. reflexivity.
  - destruct (commentSchema_boundaries (lit "Jo") (lit " Hiya ")) as (_ & _ & H & _).
    apply H. left. vm_compute. lia.
  - destruct (commentSchema_boundaries (lit "Jo") (replicate 1001 97%N))
      as (_ & _ & H & _).
    apply H. right. vm_compute. lia.
  - destruct (commentSchema_boundaries (lit "Jo") (replicate 1000 97%N))
      as (_ & _ & _ & H & _).
    apply H. vm_compute. lia.
Defined.

(** ** Submitting a comment *)
Section SubmitFacts.
Import CommentsSection Store.
Context {A : Type}.
Implicit Types (st : State) (r : Settled A) (articleId : jsstring).

Lemma handleSubmit_begin_failure articleId st es :
  commentSchema_safeParse (CommentInput.mk (authorName st) (content st)) = failure es →
  handleSubmit_begin articleId st = (setErrors (collect_errors es) (setErrors ∅ st), []).
Proof. unfold handleSubmit_begin. simpl. by intros ->. Qed.

Lemma handleSubmit_begin_success articleId st v :
  commentSchema_safeParse (CommentInput.mk (authorName st) (content st)) = success v →
  handleSubmit_begin articleId st =
  (setSubmitting true (setErrors ∅ st),
   [store (insert_comment articleId (trim (authorName st)) (trim (content st)))]).
Proof. unfold handleSubmit_begin. simpl. by intros ->. Qed.

Lemma handleSubmit_begin_comments articleId st :
  comments (handleSubmit_begin articleId st).1 = comments st.
Proof. unfold handleSubmit_begin. simpl. by case_match. Qed.

Lemma handleSubmit_resume_comments r st :
  comments (handleSubmit_resume r st).1 = comments st.
Proof. unfold handleSubmit_resume. by case_match. Qed.

Lemma collect_errors_comment_size a c :
  size (collect_errors (issues (commentSchema_safeParse (CommentInput.mk a c))))
  = length (issues (commentSchema_safeParse (CommentInput.mk a c))).
Proof.
  rewrite commentSchema_issues.
  destruct (Nat.ltb_spec (length (trim a)) 2), (Nat.ltb_spec 50 (length (trim a))),
    (Nat.ltb_spec (length (trim c)) 5), (Nat.ltb_spec 1000 (length (trim c)));
    try lia; by vm_compute.
Qed.

End SubmitFacts.

(** C4.  When the input fails the schema, [handleSubmit] has no effect
    besides its own state, so it issues no store insert, and the
    [errors] it leaves are keyed by field: a field has an entry exactly
    when it has an issue, the entry is that issue's message, and there
    are as many entries as issues. *)
Theorem handleSubmit_invalid_blocks {A} (articleId : jsstring)
    (r : Store.Settled A) (st : CommentsSection.State) :
  let v := commentSchema_safeParse
             (CommentInput.mk (CommentsSection.authorName st)
                (CommentsSection.content st)) in
  let out := CommentsSection.handleSubmit articleId r st in
  is_success v = false →
  out.2 = []
  ∧ store_calls out.2 = []
  ∧ (∀ f, CommentsSection.errors out.1 !! f = message <$> head (issues_at f v))
  ∧ (∀ f, is_Some (CommentsSection.errors out.1 !! f) ↔ issues_at f v ≠ [])
  ∧ size (CommentsSection.errors out.1) = length (issues v)
  ∧ 1 ≤ size (CommentsSection.errors out.1) ≤ 2
  ∧ CommentsSection.comments out.1 = CommentsSection.comments st
  ∧ CommentsSection.submitting out.1 = CommentsSection.submitting st.
Proof.
  intros v out Hv.
  destruct st as [cs ld sb an ct er].
  assert (Hout : out = (CommentsSection.setErrors (collect_errors (issues v))
                          (CommentsSection.setErrors ∅
                             (CommentsSection.Build_State cs ld sb an ct er)), [])).
  { subst out. unfold CommentsSection.handleSubmit.
    destruct v as [d|es] eqn:E; [done|].
    subst v. by rewrite (handleSubmit_begin_failure articleId _ es E). }
  rewrite Hout. cbn [fst snd CommentsSection.setErrors CommentsSection.errors
                     CommentsSection.comments CommentsSection.submitting].
  assert (Hlookup : ∀ f, collect_errors (issues v) !! f
                         = message <$> head (issues_at f v)).
  { intros f. rewrite collect_errors_lookup. fold (issues_at f v).
    pose proof (commentSchema_one_issue_per_field an ct f) as Hle.
    change (length (issues_at f v) ≤ 1) in Hle. by destruct (issues_at f v) as [|i [|j l]]; simpl in *; try lia. }
  assert (Hsize : size (collect_errors (issues v)) = length (issues v))
    by apply collect_errors_comment_size.
  assert (Hbound : 1 ≤ length (issues v) ≤ 2).
  { change (1 ≤ length (issues (commentSchema_safeParse (CommentInput.mk an ct))) ≤ 2).
    change (is_success (commentSchema_safeParse (CommentInput.mk an ct)) = false) in Hv.
    pose proof (commentSchema_success an ct) as Hs.
    rewrite commentSchema_issues.
    destruct (Nat.ltb_spec (length (trim an)) 2), (Nat.ltb_spec 50 (length (trim an))),
      (Nat.ltb_spec (length (trim ct)) 5), (Nat.ltb_spec 1000 (length (trim ct)));
      simpl; try lia.
    exfalso. rewrite (proj2 Hs) in Hv; [done | lia]. }
  split_and!; try done; try lia.
  intros f. rewrite Hlookup. destruct (issues_at f v); simpl.
  - split; [by intros [? ?] | done].
  - split; [done | eauto].
Qed.

(** Scenario B: the name "J" and the text "Hi" give two errors and no
    store call. *)
Lemma handleSubmit_invalid_blocks_witness :
  let st := CommentsSection.setContent (lit "Hi")
              (CommentsSection.setAuthorName (lit "J") CommentsSection.initial) in
  let out := CommentsSection.handleSubmit (A:=unit) (lit "a1") Store.rejected st in
  store_calls out.2 = []
  ∧ size (CommentsSection.errors out.1) = 2
  ∧ CommentsSection.errors out.1 !! "author_name"
    = Some "Nome deve ter no mínimo 2 caracteres"
  ∧ CommentsSection.errors out.1 !! "content"
    = Some "Comentário deve ter no mínimo 5 caracteres".
Proof.
  intros st out.
  destruct (handleSubmit_invalid_blocks (A:=unit) (lit "a1") Store.rejected st)
    as (_ & Hcalls & Hlook & _ & Hsize & _); [reflexivity|].
  split_and!.
  - exact Hcalls.
  - etrans; [exact Hsize | reflexivity].
  - etrans; [exact (Hlook "author_name") | reflexivity].
  - etrans; [exact (Hlook "content") | reflexivity].
Defined.

(** C5.  No part of [handleSubmit] touches [comments]: not the part
    before the insert, not the part after it, whatever the store
    answers and whatever happened in between; and when the input
    validates, the insert of the trimmed pair is the one store call. *)
Theorem handleSubmit_keeps_comments {A} (articleId : jsstring)
    (r : Store.Settled A) (st st_mid : CommentsSection.State) :
  CommentsSection.comments (CommentsSection.handleSubmit_begin articleId st).1
  = CommentsSection.comments st
  ∧ CommentsSection.comments (CommentsSection.handleSubmit_resume r st_mid).1
    = CommentsSection.comments st_mid
  ∧ CommentsSection.comments (CommentsSection.handleSubmit articleId r st).1
    = CommentsSection.comments st
  ∧ (is_success (commentSchema_safeParse
                   (CommentInput.mk (CommentsSection.authorName st)
                      (CommentsSection.content st))) = true →
     store_calls (CommentsSection.handleSubmit articleId r st).2
     = [Store.insert_comment articleId (trim (CommentsSection.authorName st))
          (trim (CommentsSection.content st))]).
Proof.
  split_and!.
  - apply handleSubmit_begin_comments.
  - apply handleSubmit_resume_comments.
  - unfold CommentsSection.handleSubmit.
    pose proof (handleSubmit_begin_comments articleId st) as Hb.
    destruct (CommentsSection.handleSubmit_begin articleId st) as [st1 es1].
    simpl in Hb. destruct (store_calls es1); [done|].
    pose proof (handleSubmit_resume_comments r st1) as Hr.
    destruct (CommentsSection.handleSubmit_resume r st1) as [st2 es2].
    simpl in *. congruence.
  - intros Hv. unfold CommentsSection.handleSubmit.
    destruct (commentSchema_safeParse _) as [v|] eqn:E; [|done].
    rewrite (handleSubmit_begin_success articleId st v E).
    cbn [store_calls omap]. unfold CommentsSection.handleSubmit_resume.
    by destruct (Store.unwrap r).
Qed.

(** Scenario A: "Jo" and "Hello!" are sent to the store, and the list of
    comments stays empty. *)
Lemma handleSubmit_keeps_comments_witness :
  let st := CommentsSection.setContent (lit "Hello!")
              (CommentsSection.setAuthorName (lit "Jo") CommentsSection.initial) in
  let out := CommentsSection.handleSubmit (lit "a1") (Store.ok tt) st in
  store_calls out.2 = [Store.insert_comment (lit "a1") (lit "Jo") (lit "Hello!")]
  ∧ CommentsSection.comments out.1 = [].
Proof.
  intros st out.
  destruct (handleSubmit_keeps_comments (lit "a1") (Store.ok tt) st st)
    as (_ & _ & Hc & Hs).
  split.
  - etrans; [apply Hs; reflexivity | reflexivity].
  - etrans; [exact Hc | reflexivity].
Defined.

(** ** The cache of comments under live events and fetches *)
Section CacheFacts.
Import CommentsSection Store.
Implicit Types (st : State) (c : Comment.t) (cs : list Comment.t) (i : jsstring).

Lemma count_id_cons i c cs :
  count_id i (c :: cs) = (if decide (Comment.id c = i) then 1 else 0) + count_id i cs.
Proof. unfold count_id. rewrite filter_cons. by case_decide. Qed.

Lemma count_id_app i cs1 cs2 :
  count_id i (cs1 ++ cs2) = count_id i cs1 + count_id i cs2.
Proof. unfold count_id. by rewrite filter_app, length_app. Qed.

Lemma count_id_rev i cs : count_id i (rev cs) = count_id i cs.
Proof.
  induction cs as [|c cs IH]; [done|]. simpl.
  rewrite count_id_app, IH, !count_id_cons.
  change (count_id i []) with 0. case_decide; lia.
Qed.

Lemma deliver_all_snoc ds d st :
  deliver_all (ds ++ [d]) st = deliver (deliver_all ds st) d.
Proof. unfold deliver_all. by rewrite foldl_app. Qed.

(** A run of live events piles them up, newest first. *)
Lemma deliver_all_live cs st :
  comments (deliver_all (live <$> cs) st) = rev cs ++ comments st.
Proof.
  induction cs as [|c cs IH] using rev_ind; [done|].
  rewrite fmap_app. simpl. rewrite deliver_all_snoc. simpl.
  rewrite IH, rev_app_distr. done.
Qed.

Lemma fetchComments_resume_ok cs st :
  comments (fetchComments_resume (ok cs) st).1 = cs.
Proof. done. Qed.

End CacheFacts.

(** C1 does not hold as stated: a fetch that returns the comment
    [c1] followed by the live event for the same comment leaves two
    entries with that identifier. *)
Lemma live_merge_keeps_duplicate :
  let c := Comment.mk (lit "c1") (lit "Jo") (lit "Hello!") (lit "2024-01-15") in
  let ds := [CommentsSection.fetched (Store.ok [c]); CommentsSection.live c] in
  Forall (CommentsSection.delivers (lit "c1")) ds
  ∧ CommentsSection.comments (CommentsSection.deliver_all ds CommentsSection.initial)
    = [c; c]
  ∧ CommentsSection.count_id (lit "c1")
      (CommentsSection.comments
         (CommentsSection.deliver_all ds CommentsSection.initial)) = 2
  ∧ ¬ (∀ ds i st, ds ≠ [] → Forall (CommentsSection.delivers i) ds →
         CommentsSection.count_id i
           (CommentsSection.comments (CommentsSection.deliver_all ds st)) = 1).
Proof.
  intros c ds.
  assert (Hd : Forall (CommentsSection.delivers (lit "c1")) ds).
  { repeat constructor. }
  split_and!; [exact Hd | reflexivity | reflexivity |].
  intros H. specialize (H ds (lit "c1") CommentsSection.initial).
  assert (E : CommentsSection.count_id (lit "c1")
                (CommentsSection.comments
                   (CommentsSection.deliver_all ds CommentsSection.initial)) = 2)
    by reflexivity.
  rewrite H in E; [discriminate | discriminate | exact Hd].
Qed.

(** C1, amended.  The subscription callback prepends the new comment
    whatever the cache holds: the entries with its identifier grow by
    one, the others stay, and a run of live events ends with all of
    them in the cache.  A fetch that succeeds replaces the cache with
    what it fetched.  So the cache holds the identifier exactly once
    after a live event when it did not hold it before, and after a
    successful fetch when the fetched list holds it once. *)
Theorem live_merge_prepends (c : Comment.t) (st : CommentsSection.State) :
  CommentsSection.comments (CommentsSection.on_insert c st)
  = c :: CommentsSection.comments st
  ∧ CommentsSection.count_id (Comment.id c)
      (CommentsSection.comments (CommentsSection.on_insert c st))
    = S (CommentsSection.count_id (Comment.id c) (CommentsSection.comments st))
  ∧ (∀ i, i ≠ Comment.id c →
       CommentsSection.count_id i
         (CommentsSection.comments (CommentsSection.on_insert c st))
       = CommentsSection.count_id i (CommentsSection.comments st))
  ∧ (∀ cs i,
       CommentsSection.count_id i
         (CommentsSection.comments
            (CommentsSection.deliver_all (CommentsSection.live <$> cs) st))
       = CommentsSection.count_id i cs
         + CommentsSection.count_id i (CommentsSection.comments st))
  ∧ (∀ cs, CommentsSection.comments
             (CommentsSection.deliver st (CommentsSection.fetched (Store.ok cs)))
           = cs)
  ∧ (CommentsSection.count_id (Comment.id c) (CommentsSection.comments st) = 0 →
     CommentsSection.count_id (Comment.id c)
       (CommentsSection.comments (CommentsSection.on_insert c st)) = 1)
  ∧ (∀ cs, CommentsSection.count_id (Comment.id c) cs = 1 →
     CommentsSection.count_id (Comment.id c)
       (CommentsSection.comments
          (CommentsSection.deliver st (CommentsSection.fetched (Store.ok cs)))) = 1).
Proof.
  assert (Hs : CommentsSection.count_id (Comment.id c)
                 (CommentsSection.comments (CommentsSection.on_insert c st))
               = S (CommentsSection.count_id (Comment.id c)
                      (CommentsSection.comments st))).
  { simpl. rewrite count_id_cons. by rewrite decide_True. }
  split_and!; try done.
  - intros i Hi. simpl. rewrite count_id_cons. by rewrite decide_False.
  - intros cs i. by rewrite deliver_all_live, count_id_app, count_id_rev.
  - intros H0. by rewrite Hs, H0.
Qed.

Lemma live_merge_prepends_witness :
  let c := Comment.mk (lit "c1") (lit "Jo") (lit "Hello!") (lit "2024-01-15") in
  CommentsSection.count_id (lit "c1")
    (CommentsSection.comments
       (CommentsSection.on_insert c CommentsSection.initial)) = 1
  ∧ CommentsSection.count_id (lit "c1")
      (CommentsSection.comments
         (CommentsSection.deliver (CommentsSection.on_insert c CommentsSection.initial)
            (CommentsSection.fetched (Store.ok [c])))) = 1.
Proof.
  intros c.
  destruct (live_merge_prepends c CommentsSection.initial)
    as (_ & _ & _ & _ & _ & H0 & _).
  destruct (live_merge_prepends c
              (CommentsSection.on_insert c CommentsSection.initial))
    as (_ & _ & _ & _ & _ & _ & H1).
  split.
  - apply H0. reflexivity.
  - apply (H1 [c]). reflexivity.
Defined.

(** ** The subscription of a comments section *)
Section LifecycleFacts.
Import CommentsSection Realtime.
Variable cl0 : RealtimeClient.
Hypothesis cl0_wf : well_formed cl0.

Lemma filter_old_channels (P : RealtimeChannel → Prop) `{∀ c, Decision (P c)} :
  (∀ c, ref c < next_ref cl0 → P c) →
  base.filter P (channels cl0) = channels cl0.
Proof.
  intros HP. unfold well_formed in cl0_wf.
  induction cl0_wf as [|c l Hc Hl IH]; [done|].
  rewrite filter_cons, decide_True by auto. by rewrite IH.
Qed.

Lemma filter_no_old_channels (P : RealtimeChannel → Prop) `{∀ c, Decision (P c)} :
  (∀ c, ref c < next_ref cl0 → ¬ P c) →
  base.filter P (channels cl0) = [].
Proof.
  intros HP. unfold well_formed in cl0_wf.
  induction cl0_wf as [|c l Hc Hl IH]; [done|].
  rewrite filter_cons, decide_False by auto. by rewrite IH.
Qed.

(** Closing the channel of a mounted instance gives back the channels
    of [cl0]. *)
Lemma cleanup_restores a ch cl :
  lifecycle_inv cl0 (mounted a ch, cl) →
  channels (cleanup ch cl) = channels cl0 ∧ next_ref (cleanup ch cl) = next_ref cl.
Proof.
  intros (Hn & Hch & Hr & _). simpl in *. split; [|done].
  rewrite Hch, filter_cons, decide_False by (intros E; by apply E).
  apply filter_old_channels. intros c Hc. lia.
Qed.

Lemma lifecycle_inv_init : lifecycle_inv cl0 (unmounted, cl0).
Proof. by split. Qed.

Lemma lifecycle_inv_effect a cl :
  next_ref cl0 ≤ next_ref cl → channels cl = channels cl0 →
  lifecycle_inv cl0 (effect a cl).1.
Proof.
  intros Hn Hc. unfold effect, subscribe, lifecycle_inv. simpl.
  rewrite Hc. split_and!; try done; lia.
Qed.

Lemma lifecycle_inv_step w ev : lifecycle_inv cl0 w → lifecycle_inv cl0 (lifecycle w ev).
Proof.
  intros Hw. destruct w as [[|a ch] cl], ev as [b|b|]; try done.
  - apply lifecycle_inv_effect; by destruct Hw.
  - unfold lifecycle. cbn [fst snd]. case_decide; [done|].
    destruct (cleanup_restores a ch cl Hw) as [Hc Hn].
    apply lifecycle_inv_effect; [|done]. rewrite Hn. by destruct Hw.
  - unfold lifecycle. cbn [fst snd].
    destruct (cleanup_restores a ch cl Hw) as [Hc Hn].
    split; [|done]. cbn [fst snd]. rewrite Hn. by destruct Hw.
Qed.

Lemma lifecycle_inv_run evs : lifecycle_inv cl0 (run evs (unmounted, cl0)).
Proof.
  induction evs as [|ev evs IH] using rev_ind; [apply lifecycle_inv_init|].
  unfold run in *. rewrite foldl_app. by apply lifecycle_inv_step.
Qed.

Lemma opened_since_mounted a ch cl :
  lifecycle_inv cl0 (mounted a ch, cl) → opened_since cl0 cl = [ch].
Proof.
  intros (Hn & Hch & Hr & _). simpl in *. unfold opened_since.
  rewrite Hch, filter_cons, decide_True by lia.
  f_equal. apply filter_no_old_channels. intros c Hc. lia.
Qed.

Lemma opened_since_unmounted cl :
  lifecycle_inv cl0 (unmounted, cl) → opened_since cl0 cl = [].
Proof.
  intros (Hn & Hch). simpl in *. unfold opened_since. rewrite Hch.
  apply filter_no_old_channels. intros c Hc. lia.
Qed.

(** A rerender with another article closes the channel of the old
    one and opens a channel for the new one. *)
Lemma rerender_other a ch cl a' :
  lifecycle_inv cl0 (mounted a ch, cl) → a' ≠ a →
  ∃ ch', (lifecycle (mounted a ch, cl) (rerender a')).1 = mounted a' ch'
         ∧ (ch ∉ channels (lifecycle (mounted a ch, cl) (rerender a')).2)
         ∧ opened_since cl0 (lifecycle (mounted a ch, cl) (rerender a')).2 = [ch']
         ∧ binding ch' = comments_binding a'
         ∧ topic ch' = "comments-realtime".
Proof.
  intros Hw Hne.
  pose proof (lifecycle_inv_step _ (rerender a') Hw) as Hw'.
  revert Hw'. unfold lifecycle. cbn [fst snd]. rewrite decide_False by done.
  unfold effect, subscribe. cbn [fst snd]. intros Hw'.
  eexists. split; [reflexivity|]. split_and!.
  - cbn [channels cleanup removeChannel next_ref].
    intros [E|Hin]%elem_of_cons.
    + destruct Hw as (_ & _ & Hr & _). cbn [fst snd] in Hr.
      apply (f_equal ref) in E. cbn [ref] in E. lia.
    + apply list_elem_of_filter in Hin as [Hin _]. by apply Hin.
  - by apply opened_since_mounted with (a := a').
  - done.
  - done.
Qed.

Lemma mount_opens a cl :
  lifecycle_inv cl0 (unmounted, cl) →
  ∃ ch, (lifecycle (unmounted, cl) (mount a)).1 = mounted a ch
        ∧ opened_since cl0 (lifecycle (unmounted, cl) (mount a)).2 = [ch]
        ∧ binding ch = comments_binding a
        ∧ topic ch = "comments-realtime".
Proof.
  intros Hw. pose proof (lifecycle_inv_step _ (mount a) Hw) as Hw'.
  revert Hw'. unfold lifecycle. cbn [fst snd]. unfold effect, subscribe.
  cbn [fst snd]. intros Hw'. eexists. split; [reflexivity|]. split_and!; [|done|done].
  by apply opened_since_mounted with (a := a).
Qed.

End LifecycleFacts.

(** C9.  Whatever lifecycle events an instance has seen, starting from
    a client in state [cl0], the client holds at most one channel
    opened since.  While the instance is mounted on an article that
    is its channel: the topic is "comments-realtime" and the binding
    is for the event INSERT on the table comments of the schema
    public, with the filter "article_id=eq." followed by that
    article's identifier.  A rerender with the same article changes
    nothing; a rerender with another article closes the channel and
    opens one with the filter of the new article; mounting opens the
    channel for the article mounted; and unmounting closes it, which
    leaves the client's channels as they were before the instance
    existed. *)
Theorem subscription_lifecycle (cl0 : Realtime.RealtimeClient)
    (evs : list CommentsSection.Lifecycle) :
  Realtime.well_formed cl0 →
  let w := CommentsSection.run evs (CommentsSection.unmounted, cl0) in
  length (CommentsSection.opened_since cl0 w.2) ≤ 1
  ∧ (∀ a ch, w.1 = CommentsSection.mounted a ch →
       CommentsSection.opened_since cl0 w.2 = [ch]
       ∧ ch ∈ Realtime.channels w.2
       ∧ Realtime.binding ch = CommentsSection.comments_binding a
       ∧ Realtime.topic ch = "comments-realtime"
       ∧ Realtime.event (Realtime.binding ch) = "INSERT"
       ∧ Realtime.schema (Realtime.binding ch) = "public"
       ∧ Realtime.table (Realtime.binding ch) = "comments"
       ∧ Realtime.filter (Realtime.binding ch) = lit "article_id=eq." ++ a
       ∧ CommentsSection.lifecycle w (CommentsSection.rerender a) = w
       ∧ (∀ a', a' ≠ a →
            ∃ ch',
              let w' := CommentsSection.lifecycle w (CommentsSection.rerender a') in
              w'.1 = CommentsSection.mounted a' ch'
              ∧ (ch ∉ Realtime.channels w'.2)
              ∧ CommentsSection.opened_since cl0 w'.2 = [ch']
              ∧ Realtime.topic ch' = "comments-realtime"
              ∧ Realtime.event (Realtime.binding ch') = "INSERT"
              ∧ Realtime.table (Realtime.binding ch') = "comments"
              ∧ Realtime.filter (Realtime.binding ch')
                = lit "article_id=eq." ++ a'))
  ∧ (w.1 = CommentsSection.unmounted →
       CommentsSection.opened_since cl0 w.2 = []
       ∧ Realtime.channels w.2 = Realtime.channels cl0
       ∧ ∀ a, ∃ ch,
           let w' := CommentsSection.lifecycle w (CommentsSection.mount a) in
           w'.1 = CommentsSection.mounted a ch
           ∧ CommentsSection.opened_since cl0 w'.2 = [ch]
           ∧ Realtime.topic ch = "comments-realtime"
           ∧ Realtime.event (Realtime.binding ch) = "INSERT"
           ∧ Realtime.table (Realtime.binding ch) = "comments"
           ∧ Realtime.filter (Realtime.binding ch) = lit "article_id=eq." ++ a)
  ∧ (let w' := CommentsSection.lifecycle w CommentsSection.unmount in
     w'.1 = CommentsSection.unmounted
     ∧ CommentsSection.opened_since cl0 w'.2 = []
     ∧ Realtime.channels w'.2 = Realtime.channels cl0).
Proof.
  intros Hwf w.
  pose proof (lifecycle_inv_run cl0 Hwf evs) as Hw. fold w in Hw.
  pose proof (lifecycle_inv_step cl0 Hwf w CommentsSection.unmount Hw) as Hw'.
  destruct w as [[|a ch] cl] eqn:E; cbn [fst snd] in *.
  - pose proof (opened_since_unmounted cl0 Hwf cl Hw) as Ho.
    split_and!.
    + rewrite Ho. simpl. lia.
    + intros a ch [=].
    + intros _. split_and!; [done | by destruct Hw |].
      intros a. destruct (mount_opens cl0 Hwf a cl Hw) as (ch & E1 & E2 & Hb & Ht).
      exists ch. cbn zeta. by rewrite Hb.
    + done.
    + exact Ho.
    + by destruct Hw.
  - pose proof (opened_since_mounted cl0 Hwf a ch cl Hw) as Ho.
    split_and!.
    + rewrite Ho. simpl. lia.
    + intros a' ch' [= <- <-].
      pose proof Hw as (_ & Hc & _ & Htp & Hb). cbn [fst snd] in *.
      split_and!; try done.
      * rewrite Hc. by left.
      * by rewrite Hb.
      * by rewrite Hb.
      * by rewrite Hb.
      * by rewrite Hb.
      * unfold CommentsSection.lifecycle. cbn [fst snd]. by rewrite decide_True.
      * intros a' Hne.
        destruct (rerender_other cl0 Hwf a ch cl a' Hw Hne)
          as (ch' & E1 & E2 & E3 & Hb' & Ht').
        exists ch'. cbn zeta. by rewrite Hb'.
    + intros [=].
    + done.
    + by apply (opened_since_unmounted cl0 Hwf).
    + by destruct Hw'.
Qed.

Lemma subscription_lifecycle_witness :
  let other := {| Realtime.ref := 0; Realtime.topic := "presence";
                  Realtime.binding := CommentsSection.comments_binding (lit "a0") |} in
  let cl0 := {| Realtime.channels := [other]; Realtime.next_ref := 1 |} in
  let evs := [CommentsSection.mount (lit "a1");
              CommentsSection.rerender (lit "a2")] in
  let w := CommentsSection.run evs (CommentsSection.unmounted, cl0) in
  length (CommentsSection.opened_since cl0 w.2) ≤ 1
  ∧ (Realtime.filter ∘ Realtime.binding) <$> CommentsSection.opened_since cl0 w.2
    = [lit "article_id=eq.a2"]
  ∧ Realtime.channels (CommentsSection.lifecycle w CommentsSection.unmount).2
    = [other].
Proof.
  intros other cl0 evs w.
  assert (Hwf : Realtime.well_formed cl0).
  { constructor; [simpl; lia | constructor]. }
  destruct (subscription_lifecycle cl0 evs Hwf) as (H1 & Hm & _ & _ & _ & H2).
  split_and!; [exact H1 | | exact H2].
  destruct (Hm (lit "a2")
              {| Realtime.ref := 2; Realtime.topic := "comments-realtime";
                 Realtime.binding := CommentsSection.comments_binding (lit "a2") |}
              eq_refl) as (Ho & _ & _ & _ & _ & _ & _ & Hf & _).
  fold w in Ho. rewrite Ho. cbn [fmap list_fmap]. unfold compose.
  rewrite Hf. reflexivity.
Defined.

(** ** The cache of projects *)
Section ProjectsFacts.
Import ProjectsManager Store.
Implicit Types (st : State) (id : jsstring) (ps : list Project.t).

Lemma fetchProjects_resume_failure (r : Settled (list Project.t)) st :
  unwrap r = None → fetchProjects_resume r st = (setLoading false st,
    [console_error "Error fetching projects:";
     toast {| title := "Erro";
              description := "Não foi possível carregar os projetos.";
              destructive := true |}]).
Proof. unfold fetchProjects_resume. by intros ->. Qed.

Lemma handleDelete_resume_failure {A} ps id (r : Settled A) st :
  unwrap r = None → (handleDelete_resume ps id r st).1 = st.
Proof. unfold handleDelete_resume. by intros ->. Qed.

Lemma handleDelete_resume_success {A} ps id (r : Settled A) st :
  unwrap r ≠ None →
  projects (handleDelete_resume ps id r st).1
  = base.filter (fun p => Project.id p ≠ id) ps.
Proof. unfold handleDelete_resume. by destruct (unwrap r). Qed.

Lemma handleDelete_confirmed {A} id (r : Settled A) st :
  handleDelete true id r st =
  ((handleDelete_resume (projects st) id r st).1,
   store (delete_project id) :: (handleDelete_resume (projects st) id r st).2).
Proof.
  unfold handleDelete. simpl. by destruct (handleDelete_resume _ _ _ _).
Qed.

(** Removing by identifier keeps the other records, in their order. *)
Lemma filter_id_lookup ps id p :
  p ∈ base.filter (fun p => Project.id p ≠ id) ps ↔ p ∈ ps ∧ Project.id p ≠ id.
Proof. rewrite list_elem_of_filter. tauto. Qed.

End ProjectsFacts.

(** C6.  When the store fails (an error in the answer, or a rejected
    promise), [fetchProjects] leaves [projects] as it was and only
    clears [loading], and [handleDelete] leaves the whole state as it
    was, whatever list the handler had closed over. *)
Theorem store_failure_keeps_cache {A} (st : ProjectsManager.State)
    (rl : Store.Settled (list Project.t)) (rd : Store.Settled A)
    (id : jsstring) (snapshot : list Project.t) :
  Store.unwrap rl = None → Store.unwrap rd = None →
  ProjectsManager.projects (ProjectsManager.fetchProjects rl st).1
  = ProjectsManager.projects st
  ∧ (ProjectsManager.handleDelete true id rd st).1 = st
  ∧ (ProjectsManager.handleDelete_resume snapshot id rd st).1 = st
  ∧ (ProjectsManager.handleDelete false id rd st).1 = st.
Proof.
  intros Hl Hd. split_and!.
  - unfold ProjectsManager.fetchProjects.
    by rewrite (fetchProjects_resume_failure rl st Hl).
  - rewrite handleDelete_confirmed. by apply handleDelete_resume_failure.
  - by apply handleDelete_resume_failure.
  - done.
Qed.

Lemma store_failure_keeps_cache_witness :
  let p := Project.mk (lit "p1") (lit "Site") (lit "A site") [lit "React"]
             (lit "P") None None 0%Z true (lit "2024") (lit "2024") in
  let st := {| ProjectsManager.projects := [p]; ProjectsManager.loading := false;
               ProjectsManager.editingProject := None;
               ProjectsManager.isCreating := false |} in
  let e := {| Store.pg_code := "42501"; Store.pg_message := "permission denied" |} in
  ProjectsManager.projects
    (ProjectsManager.fetchProjects (Store.failed e) st).1 = [p]
  ∧ ProjectsManager.projects
      (ProjectsManager.handleDelete (A:=unit) true (lit "p1") Store.rejected st).1
    = [p].
Proof.
  intros p st e.
  destruct (store_failure_keeps_cache (A:=unit) st (Store.failed e) Store.rejected
              (lit "p1") [] eq_refl eq_refl) as (Hf & Hd & _).
  split.
  - etrans; [exact Hf | reflexivity].
  - rewrite Hd. reflexivity.
Defined.

(** C7.  When the store confirms the delete, [projects] becomes the
    list the handler started from without the records of that
    identifier: the identifier is gone, every other record is still
    there, in the same order, and the handler issues no other store
    call than the delete.  The list subtracted from is the one the
    handler closed over, also when the state moved on in between. *)
Theorem handleDelete_subtracts {A} (st : ProjectsManager.State)
    (r : Store.Settled A) (id : jsstring) :
  Store.unwrap r ≠ None →
  let out := ProjectsManager.handleDelete true id r st in
  ProjectsManager.projects out.1
  = base.filter (fun p => Project.id p ≠ id) (ProjectsManager.projects st)
  ∧ (id ∉ Project.id <$> ProjectsManager.projects out.1)
  ∧ (∀ p, p ∈ ProjectsManager.projects out.1
          ↔ p ∈ ProjectsManager.projects st ∧ Project.id p ≠ id)
  ∧ ProjectsManager.projects out.1 `sublist_of` ProjectsManager.projects st
  ∧ store_calls out.2 = [Store.delete_project id]
  ∧ (∀ snapshot st',
       ProjectsManager.projects
         (ProjectsManager.handleDelete_resume snapshot id r st').1
       = base.filter (fun p => Project.id p ≠ id) snapshot).
Proof.
  intros Hr out.
  assert (Hp : ProjectsManager.projects out.1
               = base.filter (fun p => Project.id p ≠ id)
                   (ProjectsManager.projects st)).
  { subst out. rewrite handleDelete_confirmed.
    by apply handleDelete_resume_success. }
  split_and!.
  - exact Hp.
  - rewrite Hp. intros (p & Hid & Hin)%list_elem_of_fmap.
    apply list_elem_of_filter in Hin. destruct Hin as [Hne _]. by apply Hne.
  - intros p. rewrite Hp. apply filter_id_lookup.
  - rewrite Hp. apply sublist_filter.
  - subst out. rewrite handleDelete_confirmed. cbn [snd store_calls omap].
    unfold ProjectsManager.handleDelete_resume. by destruct (Store.unwrap r).
  - intros snapshot st'. by apply handleDelete_resume_success.
Qed.

Lemma handleDelete_subtracts_witness :
  let p1 := Project.mk (lit "p1") (lit "Site") (lit "A site") [lit "React"]
              (lit "P") None None 0%Z true (lit "2024") (lit "2024") in
  let p2 := Project.mk (lit "p2") (lit "Tool") (lit "A tool") [lit "Rust"]
              (lit "T") None None 1%Z false (lit "2024") (lit "2024") in
  let st := {| ProjectsManager.projects := [p1; p2]; ProjectsManager.loading := false;
               ProjectsManager.editingProject := None;
               ProjectsManager.isCreating := false |} in
  ProjectsManager.projects
    (ProjectsManager.handleDelete true (lit "p1") (Store.ok_null (A:=unit)) st).1
  = [p2].
Proof.
  intros p1 p2 st.
  destruct (handleDelete_subtracts st (Store.ok_null (A:=unit)) (lit "p1"))
    as (H & _); [discriminate|].
  etrans; [exact H | reflexivity].
Defined.

(** ** The project form *)
Section ProjectFormFacts.
Import ProjectForm.
Variable is_url : jsstring → bool.
Implicit Types (fd : FormData.t) (t : jsstring).

Lemma finish_failure {A} (v : A) es : es ≠ [] → finish v es = failure es.
Proof. by destruct es. Qed.

Lemma filter_at_path f p msgs :
  base.filter (fun i => path i = f) (at_path p msgs)
  = if decide (p = f) then at_path p msgs else [].
Proof.
  induction msgs as [|m msgs IH]; simpl; [by case_decide|].
  rewrite filter_cons, IH. simpl. by repeat case_decide.
Qed.

Lemma technologies_issue_path d :
  base.filter (fun i => path i = "technologies") (projectSchema_issues is_url d)
  = at_path "technologies"
      (ZodArray_min_parse 1 "Adicione pelo menos uma tecnologia"
         (ProjectDraft.technologies d)).
Proof.
  unfold projectSchema_issues. rewrite !filter_app, !filter_at_path.
  repeat case_decide; try done. simpl. by rewrite app_nil_r.
Qed.

Lemma technologiesArray_elem fd t :
  t ∈ technologiesArray fd
  ↔ t ≠ [] ∧ t ∈ trim <$> split comma (FormData.technologies fd).
Proof.
  unfold technologiesArray. rewrite list_elem_of_filter.
  destruct t; simpl; split; intros [? ?]; split; try done; lia.
Qed.

Lemma technologiesArray_tokens fd :
  Forall (fun t => t ≠ [] ∧ trim t = t ∧ comma ∉ t) (technologiesArray fd).
Proof.
  apply Forall_forall. intros t [Hne Hin]%technologiesArray_elem.
  apply list_elem_of_fmap in Hin as (u & -> & Hu).
  split_and!; [done | apply trim_idemp |].
  intros Hc%trim_elem_of.
  pose proof (split_no_sep comma (FormData.technologies fd)) as Hall.
  rewrite Forall_forall in Hall. by apply (Hall u).
Qed.

Lemma split_no_comma t : comma ∉ t → split comma t = [t].
Proof.
  induction t as [|c r IH]; [done|]. intros [Hc Hr]%not_elem_of_cons. simpl.
  destruct (N.eqb_spec c comma) as [->|_]; [done|]. by rewrite (IH Hr).
Qed.

Lemma split_app_comma t r :
  comma ∉ t → split comma (t ++ comma :: r) = t :: split comma r.
Proof.
  induction t as [|c u IH]; intros Ht; simpl.
  - done.
  - apply not_elem_of_cons in Ht as [Hc Hu].
    destruct (N.eqb_spec c comma) as [->|_]; [done|]. by rewrite (IH Hu).
Qed.

(** The pieces are the only way to cut the text at its commas. *)
Lemma split_unique (pieces : list jsstring) :
  pieces ≠ [] → Forall (fun t => comma ∉ t) pieces →
  split comma (join [comma] pieces) = pieces.
Proof.
  intros Hne Hall. induction Hall as [|t ps Ht Hps IH]; [done|].
  destruct ps as [|u ps]; [by apply split_no_comma|].
  change (join [comma] (t :: u :: ps)) with (t ++ comma :: join [comma] (u :: ps)).
  rewrite (split_app_comma t _ Ht). f_equal. by apply IH.
Qed.

Lemma trimEnd_white t : ∃ q, t = trimEnd t ++ q ∧ all_white q.
Proof.
  unfold trimEnd. destruct (trimStart_split (rev t)) as [p [Hp Hw]].
  exists (rev p). split.
  - rewrite <- rev_app_distr, <- Hp. by rewrite rev_involutive.
  - by apply List.Forall_rev.
Qed.

(** [trim] removes white space from both ends, all of it, and nothing
    else. *)
Lemma trim_spec t :
  ∃ p q, t = p ++ trim t ++ q ∧ all_white p ∧ all_white q
         ∧ (∀ c, head (trim t) = Some c → is_white_space c = false)
         ∧ (∀ c, last (trim t) = Some c → is_white_space c = false).
Proof.
  unfold trim. destruct (trimStart_split t) as [p [Hp Hwp]].
  destruct (trimEnd_white (trimStart t)) as [q [Hq Hwq]].
  exists p, q. split_and!; [by rewrite <- Hq | done | done | |].
  - intros c [r Hr]%head_Some. rewrite Hr in Hq. simpl in Hq.
    by eapply trimStart_head.
  - intros c [l Hl]%last_Some. unfold trimEnd in Hl.
    apply (f_equal (@rev N)) in Hl.
    rewrite rev_involutive, rev_app_distr in Hl. simpl in Hl.
    by eapply trimStart_head.
Qed.

End ProjectFormFacts.

(** C8.  The pieces of the text between its commas, joined by commas,
    are the text, hold no comma, and are the only such cut of the
    text; trimming removes the white space at both ends of a piece
    and nothing else; the parsed list is the trimmed pieces without
    the empty ones, each kept as often and in the order in which it
    stands; each of its elements is non-empty, trimmed and free of
    commas; when it is empty the form is rejected with an error under
    [technologies] and [onSave] is not called, and when it is not the
    field has no issue; a form that is saved carries the parsed list;
    and "React, TypeScript, " parses to React and TypeScript. *)
Theorem technologies_parsing (is_url : jsstring → bool) (fd : FormData.t)
    (errs : gmap string string) :
  let s := FormData.technologies fd in
  let ts := ProjectForm.technologiesArray fd in
  let out := ProjectForm.handleSubmit is_url fd errs in
  join [comma] (split comma s) = s
  ∧ Forall (fun t => comma ∉ t) (split comma s)
  ∧ (∀ pieces, pieces ≠ [] → Forall (fun t => comma ∉ t) pieces →
       join [comma] pieces = s → split comma s = pieces)
  ∧ (∀ t, ∃ p q, t = p ++ trim t ++ q ∧ all_white p ∧ all_white q
                 ∧ (∀ c, head (trim t) = Some c → is_white_space c = false)
                 ∧ (∀ c, last (trim t) = Some c → is_white_space c = false))
  ∧ ts = base.filter (fun t => t ≠ []) (trim <$> split comma s)
  ∧ ts `sublist_of` (trim <$> split comma s)
  ∧ (∀ t, t ∈ ts ↔ t ≠ [] ∧ t ∈ trim <$> split comma s)
  ∧ Forall (fun t => t ≠ [] ∧ trim t = t ∧ comma ∉ t) ts
  ∧ (ts = [] →
     out.2 = None
     ∧ out.1 !! "technologies" = Some "Adicione pelo menos uma tecnologia")
  ∧ (ts ≠ [] →
     issues_at "technologies"
       (ProjectForm.projectSchema_safeParse is_url (ProjectForm.dataToValidate fd))
     = [])
  ∧ (∀ p, out.2 = Some p → ProjectPayload.technologies p = ts ∧ ts ≠ [])
  ∧ (s = lit "React, TypeScript, " → ts = [lit "React"; lit "TypeScript"]).
Proof.
  intros s ts out.
  assert (Hempty : ts = [] →
            ProjectForm.projectSchema_safeParse is_url (ProjectForm.dataToValidate fd)
            = failure (ProjectForm.projectSchema_issues is_url
                         (ProjectForm.dataToValidate fd))).
  { intros E. apply finish_failure. intros Hnil.
    pose proof (technologies_issue_path is_url (ProjectForm.dataToValidate fd)) as Hp.
    rewrite Hnil in Hp. cbn [ProjectForm.dataToValidate ProjectDraft.technologies] in Hp.
    fold ts in Hp. by rewrite E in Hp. }
  split_and!.
  - apply join_split.
  - apply split_no_sep.
  - intros pieces Hne Hall <-. by apply split_unique.
  - apply trim_spec.
  - apply list_filter_iff. intros t. destruct t; simpl; split; (done || lia).
  - apply sublist_filter.
  - apply technologiesArray_elem.
  - apply technologiesArray_tokens.
  - intros E. subst out. unfold ProjectForm.handleSubmit. rewrite (Hempty E).
    split; [done|]. cbn [fst].
    rewrite collect_errors_lookup, technologies_issue_path.
    cbn [ProjectForm.dataToValidate ProjectDraft.technologies].
    fold ts. by rewrite E.
  - intros Hne. unfold issues_at, ProjectForm.projectSchema_safeParse.
    rewrite issues_finish, technologies_issue_path.
    cbn [ProjectForm.dataToValidate ProjectDraft.technologies]. fold ts.
    by destruct ts.
  - intros p. subst out. unfold ProjectForm.handleSubmit.
    destruct (ProjectForm.projectSchema_safeParse _ _) as [d|es] eqn:E; [|done].
    intros [= <-]. split; [done|]. intros Hnil.
    by specialize (Hempty Hnil).
  - intros E. subst ts. unfold ProjectForm.technologiesArray. fold s.
    by rewrite E.
Qed.

Lemma technologies_parsing_witness :
  let fd t := FormData.mk (lit "Site") (lit "A site") (lit "P") t [] [] 0%Z true in
  (ProjectForm.handleSubmit (fun _ => true) (fd (lit " , ")) ∅).2 = None
  ∧ ProjectForm.technologiesArray (fd (lit "React, TypeScript, "))
    = [lit "React"; lit "TypeScript"]
  ∧ ProjectPayload.technologies
      <$> (ProjectForm.handleSubmit (fun _ => true) (fd (lit "React, TypeScript, ")) ∅).2
    = Some [lit "React"; lit "TypeScript"]
  ∧ split comma (lit "a,b,a") = [lit "a"; lit "b"; lit "a"]
  ∧ ProjectForm.technologiesArray (fd (lit "a,b,a")) = [lit "a"; lit "b"; lit "a"].
Proof.
  intros fd.
  destruct (technologies_parsing (fun _ => true) (fd (lit " , ")) ∅)
    as (_ & _ & _ & _ & _ & _ & _ & _ & He & _).
  destruct (technologies_parsing (fun _ => true) (fd (lit "React, TypeScript, ")) ∅)
    as (_ & _ & _ & _ & _ & _ & _ & _ & _ & _ & Hp & Hx).
  destruct (technologies_parsing (fun _ => true) (fd (lit "a,b,a")) ∅)
    as (_ & _ & Hu & _ & Hf & _).
  split_and!.
  - apply He. reflexivity.
  - apply Hx. reflexivity.
  - clear He Hu Hf.
    destruct (ProjectForm.handleSubmit _ _ _).2 as [p|] eqn:E;
      [|vm_compute in E; discriminate E].
    destruct (Hp p eq_refl) as [Ht _]. simpl. f_equal.
    etrans; [exact Ht | apply Hx; reflexivity].
  - apply (Hu [lit "a"; lit "b"; lit "a"]); [discriminate | | reflexivity].
    repeat constructor; vm_compute; intros H;
      repeat (apply elem_of_cons in H as [H|H]; [discriminate H|]);
      by apply elem_of_nil in H.
  - etrans; [exact Hf | reflexivity].
Defined.

(** ** The management page *)

(** C2 does not hold as stated: for a visitor without identity
    whose session has loaded, the page asks for the sign-in route but
    still shows the control panel, and the projects manager on its
    active tab fetches the projects. *)
Lemma Admin_anonymous_fetches :
  let ctx := {| AdminPage.user := None; AdminPage.loading := false;
                AdminPage.isAdmin := false |} in
  AdminPage.Admin_effect ctx = [navigate "/auth"]
  ∧ AdminPage.mounted_children (AdminPage.Admin ctx) = [AdminPage.ProjectsManager]
  ∧ store_calls (AdminPage.commit ctx) = [Store.select_projects]
  ∧ ¬ (∀ ctx, AdminPage.loading ctx = false → AdminPage.user ctx = None →
         navigate "/auth" ∈ AdminPage.commit ctx
         ∧ store_calls (AdminPage.commit ctx) = []).
Proof.
  intros ctx. split_and!; [reflexivity | reflexivity | reflexivity |].
  intros H. destruct (H ctx eq_refl eq_refl) as [_ E]. discriminate E.
Qed.

(** C2, amended.  Once the session has loaded, the page shows the
    control panel in every case, and so the projects manager fetches;
    without identity the page also asks for the sign-in route; with an
    identity it asks for nothing, shows that identity's email, and
    neither depends on the administrator flag. *)
Theorem Admin_gate (ctx : AdminPage.AuthContext) :
  AdminPage.loading ctx = false →
  (∃ who, AdminPage.Admin ctx
          = AdminPage.ControlPanel who "projects"
              [ {| AdminPage.value := "projects";
                   AdminPage.child := AdminPage.ProjectsManager |};
                {| AdminPage.value := "articles";
                   AdminPage.child := AdminPage.ArticlesManager |} ])
  ∧ store_calls (AdminPage.commit ctx) = [Store.select_projects]
  ∧ (AdminPage.user ctx = None →
     AdminPage.Admin_effect ctx = [navigate "/auth"]
     ∧ AdminPage.commit ctx = [store Store.select_projects; navigate "/auth"])
  ∧ (∀ u, AdminPage.user ctx = Some u →
     AdminPage.Admin_effect ctx = []
     ∧ AdminPage.commit ctx = [store Store.select_projects]
     ∧ AdminPage.mounted_children (AdminPage.Admin ctx) = [AdminPage.ProjectsManager]
     ∧ ∀ flag,
         let ctx' := {| AdminPage.user := Some u; AdminPage.loading := false;
                        AdminPage.isAdmin := flag |} in
         AdminPage.Admin ctx' = AdminPage.Admin ctx
         ∧ AdminPage.commit ctx' = AdminPage.commit ctx).
Proof.
  destruct ctx as [[u|] ld adm]; simpl; intros ->.
  - split_and!; try done; [by eexists|]. intros u' [= <-]. by split_and!.
  - split_and!; try done. by eexists.
Qed.

Lemma Admin_gate_witness :
  let u := {| AdminPage.id := lit "u1"; AdminPage.email := lit "a@b.c" |} in
  let ctx := {| AdminPage.user := Some u; AdminPage.loading := false;
                AdminPage.isAdmin := false |} in
  AdminPage.Admin_effect ctx = []
  ∧ store_calls (AdminPage.commit ctx) = [Store.select_projects].
Proof.
  intros u ctx.
  destruct (Admin_gate ctx eq_refl) as (_ & Hs & _ & Hu).
  destruct (Hu u eq_refl) as (He & _).
  split; [exact He | exact Hs].
Defined.

(** ** The article page *)
Section ArticlePageFacts.
Import ArticlePage Store.

Lemma query_none rows i :
  (∀ r, r ∈ rows → ArticleRow.id r = i → ArticleRow.is_published r = false) →
  query rows i = [].
Proof.
  intros H. unfold query.
  induction rows as [|r rows IH]; [done|].
  rewrite filter_cons. case_decide as Hi.
  - rewrite filter_cons, decide_False.
    + apply IH. intros r' Hr'. apply H. by right.
    + rewrite (H r); [done | by left | done].
  - apply IH. intros r' Hr'. apply H. by right.
Qed.

End ArticlePageFacts.

(** C10.  For an identifier that no visible row carries, or that only
    unpublished rows carry, the query gives no row and no error, the
    page ends with no article and shows the not-found view, whatever
    it showed before; and it ends in the very state it ends in when
    the store holds no article at all. *)
Theorem unpublished_is_not_found (rows : list ArticleRow.t) (i : jsstring)
    (st : ArticlePage.State) :
  truthy i = true →
  (∀ r, r ∈ rows → ArticleRow.id r = i → ArticleRow.is_published r = false) →
  let out := ArticlePage.fetchArticle rows (Some i) st in
  ArticlePage.query rows i = []
  ∧ ArticlePage.maybeSingle (ArticlePage.query rows i) = Store.ok_null
  ∧ ArticlePage.article out.1 = None
  ∧ ArticlePage.render out.1 = ArticlePage.NotFound
  ∧ out = ArticlePage.fetchArticle [] (Some i) st
  ∧ out.2 = [store (Store.select_article i)].
Proof.
  intros Hi Hrows out.
  pose proof (query_none rows i Hrows) as Hq.
  subst out. unfold ArticlePage.fetchArticle. rewrite Hi, Hq.
  by split_and!.
Qed.

Lemma unpublished_is_not_found_witness :
  let draft := ArticleRow.mk (lit "a1") (lit "Draft") (lit "Soon") None
                 (lit "Geral") (lit "5 min") None false 0%Z
                 (lit "2024") (lit "2024") in
  let shown := ArticleRow.mk (lit "a2") (lit "SOLID") (lit "Text") None
                 (lit "Geral") (lit "8 min") None true 1%Z
                 (lit "2024") (lit "2024") in
  ArticlePage.render
    (ArticlePage.fetchArticle [draft; shown] (Some (lit "a1")) ArticlePage.initial).1
  = ArticlePage.NotFound
  ∧ (ArticlePage.fetchArticle [draft; shown] (Some (lit "a1")) ArticlePage.initial).1
    = (ArticlePage.fetchArticle [shown] (Some (lit "zz")) ArticlePage.initial).1.
Proof.
  intros draft shown.
  assert (H1 : ∀ r, r ∈ [draft; shown] → ArticleRow.id r = lit "a1" →
                    ArticleRow.is_published r = false).
  { intros r Hr Hid. apply elem_of_cons in Hr as [->|Hr]; [reflexivity|].
    apply elem_of_cons in Hr as [->|Hr]; [discriminate Hid|].
    by apply elem_of_nil in Hr. }
  destruct (unpublished_is_not_found [draft; shown] (lit "a1") ArticlePage.initial
              eq_refl H1) as (_ & _ & _ & Hv & _).
  split; [exact Hv | reflexivity].
Defined.

(** * Further properties of the components *)

(** ** Checks of the form schemas *)
Section SchemaChecks.
Implicit Types (s : jsstring) (es : list ZodIssue).

Lemma at_path_nil p (l : list string) : at_path p l = [] ↔ l = [].
Proof. by destruct l. Qed.

Lemma minmax_issues lo hi m1 m2 s :
  (ZodString_parse [min_check lo m1; max_check hi m2] s).2 = []
  ↔ lo ≤ length s ≤ hi.
Proof.
  simpl. destruct (Nat.ltb_spec (length s) lo), (Nat.ltb_spec hi (length s));
    simpl; split; (done || lia).
Qed.

Lemma min_issues lo m s :
  (ZodString_parse [min_check lo m] s).2 = [] ↔ lo ≤ length s.
Proof.
  simpl. destruct (Nat.ltb_spec (length s) lo); simpl; split; (done || lia).
Qed.

Lemma url_issues (is_url : jsstring → bool) s :
  ProjectForm.url_or_empty_parse is_url (ProjectForm.or_none s) = []
  ↔ s = [] ∨ is_url s = true.
Proof.
  unfold ProjectForm.or_none. destruct s as [|c r]; simpl; [by split; auto|].
  destruct (is_url (c :: r)); simpl; split; try done; auto.
  by intros [?|?].
Qed.

Lemma sort_order_issues n : ProjectForm.sort_order_parse n = [] ↔ (0 ≤ n)%Z.
Proof.
  unfold ProjectForm.sort_order_parse.
  destruct (Z.ltb_spec n 0); split; (done || lia).
Qed.

Lemma array_min_issues {A} m (a : list A) :
  ProjectForm.ZodArray_min_parse 1 m a = [] ↔ a ≠ [].
Proof. by destruct a. Qed.

Lemma collect_errors_nonempty es : es ≠ [] → collect_errors es ≠ ∅.
Proof.
  destruct es as [|e es _] using rev_ind; [done|]. intros _.
  rewrite collect_errors_snoc. apply insert_non_empty.
Qed.

(** Every key of the error object is the path of an issue. *)
Lemma collect_errors_keys es f :
  is_Some (collect_errors es !! f) → f ∈ path <$> es.
Proof.
  rewrite collect_errors_lookup. intros [m Hm].
  destruct (last _) as [i|] eqn:E; [|done].
  apply last_Some_elem_of, list_elem_of_filter in E as [<- Hi].
  by apply list_elem_of_fmap_2.
Qed.

Lemma or_none_spec s :
  ProjectForm.or_none s = match s with [] => None | _ => Some s end.
Proof. by destruct s. Qed.

End SchemaChecks.

(** ** The project form *)
Section ProjectFormMore.
Import ProjectForm ProjectFormState JSText.
Variable is_url : jsstring → bool.
Implicit Types (fd : FormData.t) (errs : gmap string string).

(** What the project schema asks of a form. *)
Lemma projectSchema_issues_nil fd :
  projectSchema_issues is_url (dataToValidate fd) = []
  ↔ 1 ≤ length (FormData.title fd) ≤ 100
    ∧ 1 ≤ length (FormData.description fd) ≤ 500
    ∧ 1 ≤ length (FormData.icon fd)
    ∧ technologiesArray fd ≠ []
    ∧ (FormData.demo_url fd = [] ∨ is_url (FormData.demo_url fd) = true)
    ∧ (FormData.repo_url fd = [] ∨ is_url (FormData.repo_url fd) = true)
    ∧ (0 ≤ FormData.sort_order fd)%Z.
Proof.
  unfold projectSchema_issues. rewrite !app_nil, !at_path_nil.
  cbn [dataToValidate ProjectDraft.title ProjectDraft.description ProjectDraft.icon
       ProjectDraft.technologies ProjectDraft.demo_url ProjectDraft.repo_url
       ProjectDraft.sort_order].
  by rewrite !minmax_issues, min_issues, array_min_issues, !url_issues,
    sort_order_issues.
Qed.

Lemma project_handleSubmit_cases fd errs :
  (projectSchema_issues is_url (dataToValidate fd) = []
   ∧ handleSubmit is_url fd errs
     = (errs,
        Some (ProjectPayload.mk (FormData.title fd) (FormData.description fd)
                (FormData.icon fd) (technologiesArray fd)
                (or_none (FormData.demo_url fd)) (or_none (FormData.repo_url fd))
                (FormData.sort_order fd) (FormData.is_published fd))))
  ∨ (projectSchema_issues is_url (dataToValidate fd) ≠ []
     ∧ handleSubmit is_url fd errs
       = (collect_errors (projectSchema_issues is_url (dataToValidate fd)), None)).
Proof.
  unfold handleSubmit, projectSchema_safeParse.
  destruct (projectSchema_issues is_url (dataToValidate fd)) as [|i l] eqn:E.
  - by left.
  - by right.
Qed.

Lemma projectSchema_paths fd f :
  f ∈ path <$> projectSchema_issues is_url (dataToValidate fd) →
  f ∈ ["title"; "description"; "icon"; "technologies"; "demo_url"; "repo_url";
       "sort_order"].
Proof.
  unfold projectSchema_issues. rewrite !fmap_app, !elem_of_app.
  assert (Hp : ∀ p l, f ∈ path <$> at_path p l → f = p).
  { intros p l (i & -> & Hi)%list_elem_of_fmap.
    unfold at_path in Hi. by apply list_elem_of_fmap in Hi as (m & -> & _). }
  intros [H|[H|[H|[H|[H|[H|H]]]]]]; apply Hp in H; subst f;
    repeat first [by left | right].
Qed.

End ProjectFormMore.

(** X1.  The project form calls [onSave] exactly when the title has 1
    to 100 code units, the description 1 to 500, the icon at least
    one, the parsed technologies are not empty, each link is empty or
    a URL, and the order is not negative; nothing is trimmed but the
    technologies.  When it does, [errors] stays as it was; when it
    does not, [errors] is not empty and its keys are fields of the
    schema. *)
Theorem project_handleSubmit_saves_iff (is_url : jsstring → bool)
    (fd : FormData.t) (errs : gmap string string) :
  let out := ProjectForm.handleSubmit is_url fd errs in
  (is_Some out.2 ↔
     1 ≤ length (FormData.title fd) ≤ 100
     ∧ 1 ≤ length (FormData.description fd) ≤ 500
     ∧ 1 ≤ length (FormData.icon fd)
     ∧ ProjectForm.technologiesArray fd ≠ []
     ∧ (FormData.demo_url fd = [] ∨ is_url (FormData.demo_url fd) = true)
     ∧ (FormData.repo_url fd = [] ∨ is_url (FormData.repo_url fd) = true)
     ∧ (0 ≤ FormData.sort_order fd)%Z)
  ∧ (is_Some out.2 → out.1 = errs)
  ∧ (out.2 = None →
     out.1 ≠ ∅
     ∧ ∀ f, is_Some (out.1 !! f) →
            f ∈ ["title"; "description"; "icon"; "technologies"; "demo_url";
                 "repo_url"; "sort_order"]).
Proof.
  intros out. subst out.
  destruct (project_handleSubmit_cases is_url fd errs) as [[Hi ->]|[Hi ->]];
    cbn [fst snd].
  - split_and!; [|done|done].
    split; [intros _; by apply projectSchema_issues_nil | by eauto].
  - split_and!.
    + split; [by intros [? ?]|]. intros H. by apply projectSchema_issues_nil in H.
    + by intros [? ?].
    + intros _. split; [by apply collect_errors_nonempty|].
      intros f Hf. apply (projectSchema_paths is_url fd).
      by apply collect_errors_keys.
Qed.

Lemma project_handleSubmit_saves_iff_witness :
  let fd := FormData.mk (lit " ") (lit "A site") (lit "P") (lit "React")
              [] (lit "x") 0%Z true in
  is_Some (ProjectForm.handleSubmit (fun _ => true) fd ∅).2
  ∧ (ProjectForm.handleSubmit (fun _ => false) fd ∅).1 ≠ ∅.
Proof.
  intros fd.
  destruct (project_handleSubmit_saves_iff (fun _ => true) fd ∅) as (Hs & _).
  destruct (project_handleSubmit_saves_iff (fun _ => false) fd ∅) as (_ & _ & Hn).
  split.
  - apply Hs. vm_compute. repeat split; auto; try lia; discriminate.
  - apply Hn. reflexivity.
Defined.

Section TechnologiesRoundTrip.
Import ProjectForm ProjectFormState JSText.
Implicit Types (t : jsstring) (ts : list jsstring).

(** The pieces of a list joined with comma and space. *)
Lemma split_join ts :
  Forall (fun t => comma ∉ t) ts →
  split comma (join (lit ", ") ts)
  = match ts with [] => [[]] | t :: ts' => t :: (cons 32%N <$> ts') end.
Proof.
  induction 1 as [|t ts Ht Hts IH]; [done|].
  destruct ts as [|u ts]; [by apply split_no_comma|].
  change (join (lit ", ") (t :: u :: ts))
    with (t ++ comma :: 32%N :: join (lit ", ") (u :: ts)).
  rewrite (split_app_comma t _ Ht).
  change (split comma (32%N :: join (lit ", ") (u :: ts)))
    with (match split comma (join (lit ", ") (u :: ts)) with
          | [] => [[32%N]]
          | x :: xs => (32%N :: x) :: xs
          end).
  by rewrite IH.
Qed.

Lemma trim_space t : trim (32%N :: t) = trim t.
Proof. done. Qed.

Lemma technologies_of_join ts :
  Forall (fun t => t ≠ [] ∧ trim t = t ∧ comma ∉ t) ts →
  base.filter (fun t => 0 < length t) (trim <$> split comma (join (lit ", ") ts))
  = ts.
Proof.
  intros Hts.
  rewrite split_join by (eapply Forall_impl; [exact Hts | by intros ? (_&_&?)]).
  destruct Hts as [|t ts (Hne & Htr & _) Hts]; [done|].
  rewrite fmap_cons, Htr, filter_cons, decide_True
    by (destruct t; [done | simpl; lia]).
  f_equal. induction Hts as [|u us (Hu & Hut & _) _ IH]; [done|].
  rewrite !fmap_cons, trim_space, Hut, filter_cons, decide_True
    by (destruct u; [done | simpl; lia]).
  by rewrite IH.
Qed.

End TechnologiesRoundTrip.

(** X2.  Opening the form on a stored project and parsing its
    technologies field gives the project's list back, when every tag
    is non-empty, trimmed and free of commas. *)
Theorem technologies_round_trip (p : Project.t) :
  Forall (fun t => t ≠ [] ∧ trim t = t ∧ comma ∉ t) (Project.technologies p) →
  ProjectForm.technologiesArray (ProjectFormState.formData_init (Some p))
  = Project.technologies p.
Proof.
  intros H. unfold ProjectForm.technologiesArray.
  cbn [ProjectFormState.formData_init FormData.technologies].
  replace (JSText.or_else (join (lit ", ") (Project.technologies p)) [])
    with (join (lit ", ") (Project.technologies p))
    by (unfold JSText.or_else; by destruct (join _ _)).
  by apply technologies_of_join.
Qed.

Lemma technologies_round_trip_witness :
  let p := Project.mk (lit "p1") (lit "Shop") (lit "A shop")
             [lit "React"; lit "Node.js"; lit "C# 12"] (lit "S") None None
             0%Z true (lit "2024") (lit "2024") in
  ProjectForm.technologiesArray (ProjectFormState.formData_init (Some p))
  = [lit "React"; lit "Node.js"; lit "C# 12"].
Proof.
  intros p. apply (technologies_round_trip p).
  repeat constructor; try discriminate; vm_compute; intros H;
    repeat (apply elem_of_cons in H as [H|H]; [discriminate H|]);
    by apply elem_of_nil in H.
Defined.

Section FormStateFacts.
Import ProjectFormState JSText.

Lemma or_else_nil s : or_else s [] = s.
Proof. by destruct s. Qed.

Lemma or_else_truthy s d : s ≠ [] → or_else s d = s.
Proof. by destruct s. Qed.

Lemma num_or_zero n : num_or n 0%Z = n.
Proof. unfold num_or. by destruct (Z.eqb_spec n 0). Qed.

(** A link goes through the form unchanged, but for the empty string,
    which comes out as [null]. *)
Lemma or_none_link (o : option jsstring) :
  ProjectForm.or_none (or_else (default [] o) [])
  = match o with Some [] => None | _ => o end.
Proof. by destruct o as [[|c r]|]. Qed.

Lemma shown_insert_empty errs f : shown (<[f := ""]> errs) f = false.
Proof. unfold shown. by rewrite lookup_insert_eq. Qed.

End FormStateFacts.

(** X3.  Opening the form on a stored project and saving it untouched
    hands [onSave] the project's own values, when its icon is not
    empty and its tags are well formed; a link stored as the empty
    string comes out as [null]. *)
Theorem unchanged_edit_saves_same (is_url : jsstring → bool) (p : Project.t)
    (errs : gmap string string) (saved : ProjectPayload.t) :
  Project.icon p ≠ [] →
  Forall (fun t => t ≠ [] ∧ trim t = t ∧ comma ∉ t) (Project.technologies p) →
  (ProjectForm.handleSubmit is_url (ProjectFormState.formData_init (Some p)) errs).2
  = Some saved →
  ProjectPayload.title saved = Project.title p
  ∧ ProjectPayload.description saved = Project.description p
  ∧ ProjectPayload.icon saved = Project.icon p
  ∧ ProjectPayload.technologies saved = Project.technologies p
  ∧ ProjectPayload.demo_url saved
    = match Project.demo_url p with Some [] => None | o => o end
  ∧ ProjectPayload.repo_url saved
    = match Project.repo_url p with Some [] => None | o => o end
  ∧ ProjectPayload.sort_order saved = Project.sort_order p
  ∧ ProjectPayload.is_published saved = Project.is_published p.
Proof.
  intros Hicon Htags.
  pose proof (technologiesArray_eq := technologies_of_join _ Htags).
  destruct (project_handleSubmit_cases is_url
              (ProjectFormState.formData_init (Some p)) errs)
    as [[_ ->]|[_ ->]]; [|done].
  intros [= <-].
  cbn [ProjectPayload.title ProjectPayload.description ProjectPayload.icon
       ProjectPayload.technologies ProjectPayload.demo_url ProjectPayload.repo_url
       ProjectPayload.sort_order ProjectPayload.is_published
       ProjectFormState.formData_init FormData.title FormData.description
       FormData.icon FormData.demo_url FormData.repo_url FormData.sort_order
       FormData.is_published].
  rewrite !or_else_nil, (or_else_truthy _ _ Hicon), num_or_zero.
  split_and!; try done.
  - by destruct (Project.demo_url p) as [[|? ?]|].
  - by destruct (Project.repo_url p) as [[|? ?]|].
Qed.

Lemma unchanged_edit_saves_same_witness :
  let p := Project.mk (lit "p1") (lit "Shop") (lit "A shop")
             [lit "React"; lit "Node.js"] (lit "S") (Some []) (Some (lit "https://x.y"))
             3%Z false (lit "2024") (lit "2024") in
  ProjectPayload.technologies
    <$> (ProjectForm.handleSubmit (fun _ => true)
           (ProjectFormState.formData_init (Some p)) ∅).2
  = Some [lit "React"; lit "Node.js"].
Proof.
  intros p.
  destruct (ProjectForm.handleSubmit (fun _ => true)
              (ProjectFormState.formData_init (Some p)) ∅).2 as [saved|] eqn:E;
    [|vm_compute in E; discriminate E].
  assert (Htags : Forall (fun t => t ≠ [] ∧ trim t = t ∧ comma ∉ t)
                    (Project.technologies p)).
  { repeat constructor; try discriminate; vm_compute; intros H;
      repeat (apply elem_of_cons in H as [H|H]; [discriminate H|]);
      by apply elem_of_nil in H. }
  destruct (unchanged_edit_saves_same (fun _ => true) p ∅ saved) as (_&_&_&Ht&_);
    [discriminate | exact Htags | exact E |].
  simpl. f_equal. exact Ht.
Defined.

(** X4.  A change of a field never leaves an error on show for that
    field, keeps the entries of the other fields, and adds or removes
    no key; when no error was on show for the field, [errors] is left
    as it was.  The form data changes in that field alone. *)
Theorem handleChange_clears_own_error (c : ProjectFormState.FieldChange)
    (fd : FormData.t) (errs : gmap string string) :
  let out := ProjectFormState.handleChange c (fd, errs) in
  ProjectFormState.shown out.2 (ProjectFormState.field c) = false
  ∧ (∀ f, f ≠ ProjectFormState.field c → out.2 !! f = errs !! f)
  ∧ dom out.2 = dom errs
  ∧ (ProjectFormState.shown errs (ProjectFormState.field c) = false → out.2 = errs)
  ∧ (∀ c', ProjectFormState.field c' ≠ ProjectFormState.field c →
       ProjectFormState.assign c' (ProjectFormState.assign c fd)
       = ProjectFormState.assign c (ProjectFormState.assign c' fd)).
Proof.
  intros out. subst out. unfold ProjectFormState.handleChange. cbn [fst snd].
  destruct (ProjectFormState.shown errs (ProjectFormState.field c)) eqn:E.
  - split_and!.
    + apply shown_insert_empty.
    + intros f Hf. by rewrite lookup_insert_ne.
    + rewrite dom_insert_L. unfold ProjectFormState.shown in E.
      destruct (errs !! ProjectFormState.field c) eqn:El; [|done].
      apply elem_of_dom_2 in El.
      apply subseteq_union_1_L. by apply singleton_subseteq_l.
    + done.
    + intros c' Hc. by destruct c, c'.
  - split_and!; try done. intros c' Hc. by destruct c, c'.
Qed.

Lemma handleChange_clears_own_error_witness :
  let errs : gmap string string :=
    <["title" := "Título é obrigatório"]> (<["icon" := "Ícone é obrigatório"]> ∅) in
  let fd := FormData.mk [] [] [] [] [] [] 0%Z true in
  let out := ProjectFormState.handleChange
               (ProjectFormState.change_title (lit "Shop")) (fd, errs) in
  out.2 !! "icon" = Some "Ícone é obrigatório" ∧ out.2 !! "title" = Some "".
Proof.
  intros errs fd out.
  destruct (handleChange_clears_own_error
              (ProjectFormState.change_title (lit "Shop")) fd errs) as (_ & Ho & _).
  split.
  - etrans; [apply Ho; discriminate | reflexivity].
  - reflexivity.
Defined.

(** ** Saving a project *)
Section SaveFacts.
Import Store ProjectsManager ProjectsManagerSave.
Context {A : Type}.
Implicit Types (st : State) (rm : Settled A) (rf : Settled (list Project.t)).

Lemma handleSave_failure project rm rf st :
  unwrap rm = None →
  handleSave project rm rf st
  = (handleSave_begin project st, st,
     [console_error "Error saving project:";
      toast {| title := "Erro";
               description := "Não foi possível salvar o projeto.";
               destructive := true |}]).
Proof. unfold handleSave, handleSave_resume. by intros ->. Qed.

Lemma handleSave_success project rm rf st :
  unwrap rm ≠ None →
  (handleSave project rm rf st).1
  = (handleSave_begin project st,
     (fetchProjects_resume rf (setIsCreating false (setEditingProject None st))).1)
  ∧ store_calls (handleSave project rm rf st).2 = [select_projects].
Proof.
  unfold handleSave, handleSave_resume. destruct (unwrap rm); [intros _|done].
  cbn [store_calls omap]. unfold fetchProjects_resume.
  by destruct (unwrap rf).
Qed.

End SaveFacts.

(** X5.  When the store refuses the mutation, [handleSave] leaves the
    whole state as it was, so the form stays open on the same project,
    and it starts no refetch. *)
Theorem handleSave_failure_keeps_form {A} (project : PartialProject.t)
    (rm : Store.Settled A) (rf : Store.Settled (list Project.t))
    (st : ProjectsManager.State) :
  Store.unwrap rm = None →
  let out := ProjectsManagerSave.handleSave project rm rf st in
  out.1.2 = st ∧ store_calls out.2 = []
  ∧ (ProjectsManagerSave.handleSave_resume
       (bool_decide (is_Some (ProjectsManager.editingProject st))) rm st).1 = st.
Proof.
  intros H out. subst out. rewrite (handleSave_failure project rm rf st H).
  split_and!; try done. unfold ProjectsManagerSave.handleSave_resume. by rewrite H.
Qed.

Lemma handleSave_failure_keeps_form_witness :
  let p := Project.mk (lit "p1") (lit "Shop") (lit "A shop") [lit "React"]
             (lit "S") None None 0%Z true (lit "2024") (lit "2024") in
  let st := {| ProjectsManager.projects := [p]; ProjectsManager.loading := false;
               ProjectsManager.editingProject := Some p;
               ProjectsManager.isCreating := false |} in
  let patch := PartialProject.mk (Some (lit "Store")) None None None None None
                 None None in
  (ProjectsManagerSave.handleSave (A:=unit) patch Store.rejected (Store.ok []) st).1.2
  = st.
Proof.
  intros p st patch.
  destruct (handleSave_failure_keeps_form (A:=unit) patch Store.rejected
              (Store.ok []) st eq_refl) as (H & _).
  exact H.
Defined.

(** X6.  When the store accepts the mutation, [handleSave] closes the
    form, changes [projects] in no way of its own, and starts exactly
    one refetch; once that refetch has settled, [projects] is the
    fetched list, or the list from before the save when the refetch
    failed, and [loading] is off. *)
Theorem handleSave_success_refetches {A} (project : PartialProject.t)
    (rm : Store.Settled A) (rf : Store.Settled (list Project.t))
    (st : ProjectsManager.State) :
  Store.unwrap rm ≠ None →
  let out := ProjectsManagerSave.handleSave project rm rf st in
  ProjectsManager.editingProject out.1.2 = None
  ∧ ProjectsManager.isCreating out.1.2 = false
  ∧ ProjectsManager.loading out.1.2 = false
  ∧ store_calls out.2 = [Store.select_projects]
  ∧ ProjectsManager.projects out.1.2
    = match Store.unwrap rf with
      | Some d => default [] d
      | None => ProjectsManager.projects st
      end
  ∧ ProjectsManager.projects
      (ProjectsManagerSave.handleSave_resume
         (bool_decide (is_Some (ProjectsManager.editingProject st))) rm st).1
    = ProjectsManager.projects st.
Proof.
  intros H out. subst out.
  destruct (handleSave_success project rm rf st H) as [E1 E2]. rewrite E1, E2.
  cbn [fst snd]. unfold ProjectsManager.fetchProjects_resume,
    ProjectsManagerSave.handleSave_resume.
  destruct (Store.unwrap rm); [|done]. by destruct (Store.unwrap rf).
Qed.

Lemma handleSave_success_refetches_witness :
  let p := Project.mk (lit "p1") (lit "Shop") (lit "A shop") [lit "React"]
             (lit "S") None None 0%Z true (lit "2024") (lit "2024") in
  let q := Project.mk (lit "p1") (lit "Store") (lit "A shop") [lit "React"]
             (lit "S") None None 0%Z true (lit "2024") (lit "2025") in
  let st := {| ProjectsManager.projects := [p]; ProjectsManager.loading := false;
               ProjectsManager.editingProject := Some p;
               ProjectsManager.isCreating := false |} in
  let patch := PartialProject.mk (Some (lit "Store")) None None None None None
                 None None in
  ProjectsManager.projects
    (ProjectsManagerSave.handleSave patch (Store.ok_null (A:=unit)) (Store.ok [q]) st).1.2
  = [q].
Proof.
  intros p q st patch.
  destruct (handleSave_success_refetches patch (Store.ok_null (A:=unit))
              (Store.ok [q]) st) as (_ & _ & _ & _ & H & _); [discriminate|].
  exact H.
Defined.



(** X8.  Two deletes started from the same list: when both are
    confirmed, [projects] ends as that list without the second
    identifier, so the records of the first identifier, which the first
    completion had removed, are back in the list. *)
Theorem overlapping_deletes_last_wins {A B} (st : ProjectsManager.State)
    (a b : jsstring) (ra : Store.Settled A) (rb : Store.Settled B) :
  Store.unwrap ra ≠ None → Store.unwrap rb ≠ None → a ≠ b →
  let snapshot := ProjectsManager.projects st in
  let st1 := (ProjectsManager.handleDelete_resume snapshot a ra st).1 in
  let st2 := (ProjectsManager.handleDelete_resume snapshot b rb st1).1 in
  ProjectsManager.projects st2
  = base.filter (fun p => Project.id p ≠ b) snapshot
  ∧ (∀ p, p ∈ snapshot → Project.id p = a →
          (p ∉ ProjectsManager.projects st1) ∧ p ∈ ProjectsManager.projects st2).
Proof.
  intros Ha Hb Hab snapshot st1 st2.
  assert (E2 : ProjectsManager.projects st2
               = base.filter (fun p => Project.id p ≠ b) snapshot)
    by (by apply handleDelete_resume_success).
  assert (E1 : ProjectsManager.projects st1
               = base.filter (fun p => Project.id p ≠ a) snapshot)
    by (by apply handleDelete_resume_success).
  split; [exact E2|]. intros p Hp Hid. rewrite E1, E2, !list_elem_of_filter.
  split; [by intros [? _] | split; [congruence | done]].
Qed.

Lemma overlapping_deletes_last_wins_witness :
  let p1 := Project.mk (lit "p1") (lit "Site") (lit "A site") [lit "React"]
              (lit "P") None None 0%Z true (lit "2024") (lit "2024") in
  let p2 := Project.mk (lit "p2") (lit "Tool") (lit "A tool") [lit "Rust"]
              (lit "T") None None 1%Z false (lit "2024") (lit "2024") in
  let st := {| ProjectsManager.projects := [p1; p2]; ProjectsManager.loading := false;
               ProjectsManager.editingProject := None;
               ProjectsManager.isCreating := false |} in
  let st1 := (ProjectsManager.handleDelete_resume [p1; p2] (lit "p1")
                (Store.ok_null (A:=unit)) st).1 in
  ProjectsManager.projects
    (ProjectsManager.handleDelete_resume [p1; p2] (lit "p2")
       (Store.ok_null (A:=unit)) st1).1
  = [p1].
Proof.
  intros p1 p2 st st1.
  destruct (overlapping_deletes_last_wins st (lit "p1") (lit "p2")
              (Store.ok_null (A:=unit)) (Store.ok_null (A:=unit)))
    as (H & _); [discriminate | discriminate | discriminate |].
  etrans; [exact H | reflexivity].
Defined.

(** ** More on the comments section *)
Section CommentsMore.
Import CommentsSection Store.
Implicit Types (st : State) (articleId : jsstring).

Lemma validation_cases st :
  (∃ v, commentSchema_safeParse (CommentInput.mk (authorName st) (content st))
        = success v
        ∧ 2 ≤ length (trim (authorName st)) ≤ 50
        ∧ 5 ≤ length (trim (content st)) ≤ 1000)
  ∨ (∃ es, commentSchema_safeParse (CommentInput.mk (authorName st) (content st))
           = failure es).
Proof.
  destruct (commentSchema_safeParse _) as [v|es] eqn:E; [left|right; eauto].
  exists v. split; [done|].
  apply commentSchema_success. by rewrite E.
Qed.

Lemma cleared_input_fails :
  ∃ es, commentSchema_safeParse (CommentInput.mk [] []) = failure es.
Proof. by eexists. Qed.

End CommentsMore.

(** X9.  [fetchComments] always ends with [loading] off and touches
    neither the form fields nor [errors]; when the store fails it
    keeps the comments it had, and when the store answers it takes the
    answered list, the empty list for [null]. *)
Theorem fetchComments_outcomes (r : Store.Settled (list Comment.t))
    (st : CommentsSection.State) :
  let out := CommentsSection.fetchComments_resume r st in
  CommentsSection.loading out.1 = false
  ∧ CommentsSection.authorName out.1 = CommentsSection.authorName st
  ∧ CommentsSection.content out.1 = CommentsSection.content st
  ∧ CommentsSection.errors out.1 = CommentsSection.errors st
  ∧ CommentsSection.submitting out.1 = CommentsSection.submitting st
  ∧ (Store.unwrap r = None →
     CommentsSection.comments out.1 = CommentsSection.comments st
     ∧ out.2 = [console_error "Error fetching comments:"])
  ∧ (∀ d, Store.unwrap r = Some d →
     CommentsSection.comments out.1 = default [] d ∧ out.2 = []).
Proof.
  intros out. subst out. unfold CommentsSection.fetchComments_resume.
  destruct (Store.unwrap r) as [d|]; split_and!; try done.
  intros d' [= <-]. done.
Qed.

Lemma fetchComments_outcomes_witness :
  let c := Comment.mk (lit "c1") (lit "Jo") (lit "Hello!") (lit "2024-01-15") in
  let st := CommentsSection.on_insert c CommentsSection.initial in
  CommentsSection.comments
    (CommentsSection.fetchComments_resume Store.rejected st).1 = [c]
  ∧ CommentsSection.comments
      (CommentsSection.fetchComments_resume Store.ok_null st).1 = [].
Proof.
  intros c st.
  destruct (fetchComments_outcomes Store.rejected st) as (_&_&_&_&_& Hf & _).
  destruct (fetchComments_outcomes Store.ok_null st) as (_&_&_&_&_&_& Hs).
  split.
  - destruct (Hf eq_refl) as [H _]. etrans; [exact H | reflexivity].
  - destruct (Hs None eq_refl) as [H _]. exact H.
Defined.

(** X10.  Every comment [handleSubmit] sends to the store is for the
    section's article, is trimmed, and has a name of 2 to 50 and a
    text of 5 to 1000 code units. *)
Theorem inserted_comment_is_valid (articleId a n c : jsstring)
    (st : CommentsSection.State) :
  store (Store.insert_comment a n c)
    ∈ (CommentsSection.handleSubmit_begin articleId st).2 →
  a = articleId
  ∧ n = trim (CommentsSection.authorName st)
  ∧ c = trim (CommentsSection.content st)
  ∧ trim n = n ∧ trim c = c
  ∧ 2 ≤ length n ≤ 50 ∧ 5 ≤ length c ≤ 1000.
Proof.
  destruct (validation_cases st) as [(v & E & Hn & Hc)|(es & E)].
  - rewrite (handleSubmit_begin_success articleId st v E). cbn [snd].
    intros H. apply list_elem_of_singleton in H. injection H as -> -> ->.
    by rewrite !trim_idemp.
  - rewrite (handleSubmit_begin_failure articleId st es E). cbn [snd].
    by intros H%elem_of_nil.
Qed.

Lemma inserted_comment_is_valid_witness :
  let st := CommentsSection.setContent (lit "  Hello!  ")
              (CommentsSection.setAuthorName (lit " Jo") CommentsSection.initial) in
  2 ≤ length (lit "Jo") ≤ 50 ∧ 5 ≤ length (lit "Hello!") ≤ 1000.
Proof.
  intros st.
  destruct (inserted_comment_is_valid (lit "a1") (lit "a1") (lit "Jo") (lit "Hello!") st)
    as (_&_&_&_&_& Hn & Hc).
  - vm_compute. apply list_elem_of_here.
  - split; [exact Hn | exact Hc].
Defined.

(** X11.  After a submission the store has accepted, the two inputs are
    empty and [submitting] is off, and submitting again without typing
    does nothing but set the two validation errors: no second insert
    goes out. *)
Theorem resubmit_after_success_is_blocked {A B} (articleId : jsstring)
    (r : Store.Settled A) (r' : Store.Settled B) (st : CommentsSection.State) :
  is_success (commentSchema_safeParse
                (CommentInput.mk (CommentsSection.authorName st)
                   (CommentsSection.content st))) = true →
  Store.unwrap r ≠ None →
  let st' := (CommentsSection.handleSubmit articleId r st).1 in
  CommentsSection.authorName st' = []
  ∧ CommentsSection.content st' = []
  ∧ CommentsSection.submitting st' = false
  ∧ (CommentsSection.handleSubmit articleId r' st').2 = []
  ∧ size (CommentsSection.errors (CommentsSection.handleSubmit articleId r' st').1) = 2.
Proof.
  intros Hv Hr st'.
  assert (E : st' = CommentsSection.setSubmitting false
                      (CommentsSection.setContent []
                         (CommentsSection.setAuthorName []
                            (CommentsSection.setSubmitting true
                               (CommentsSection.setErrors ∅ st))))).
  { subst st'. unfold CommentsSection.handleSubmit.
    destruct (commentSchema_safeParse _) as [v|] eqn:Ev; [|done].
    rewrite (handleSubmit_begin_success articleId st v Ev). cbn [store_calls omap].
    unfold CommentsSection.handleSubmit_resume. by destruct (Store.unwrap r). }
  rewrite E. split_and!; try done.
Qed.

Lemma resubmit_after_success_is_blocked_witness :
  let st := CommentsSection.setContent (lit "Hello!")
              (CommentsSection.setAuthorName (lit "Jo") CommentsSection.initial) in
  let st' := (CommentsSection.handleSubmit (lit "a1") (Store.ok tt) st).1 in
  (CommentsSection.handleSubmit (lit "a1") (Store.ok tt) st').2 = [].
Proof.
  intros st st'.
  destruct (resubmit_after_success_is_blocked (lit "a1") (Store.ok tt) (Store.ok tt) st)
    as (_&_&_& H & _); [reflexivity | discriminate |].
  exact H.
Defined.

(** X12.  After a submission the store has refused, the two inputs are
    as typed and [submitting] is off, so submitting again sends the
    same insert. *)
Theorem retry_after_failure_resends {A B} (articleId : jsstring)
    (r : Store.Settled A) (r' : Store.Settled B) (st : CommentsSection.State) :
  is_success (commentSchema_safeParse
                (CommentInput.mk (CommentsSection.authorName st)
                   (CommentsSection.content st))) = true →
  Store.unwrap r = None →
  let out := CommentsSection.handleSubmit articleId r st in
  CommentsSection.authorName out.1 = CommentsSection.authorName st
  ∧ CommentsSection.content out.1 = CommentsSection.content st
  ∧ CommentsSection.submitting out.1 = false
  ∧ CommentsSection.comments out.1 = CommentsSection.comments st
  ∧ store_calls (CommentsSection.handleSubmit articleId r' out.1).2
    = store_calls out.2
  ∧ store_calls out.2
    = [Store.insert_comment articleId (trim (CommentsSection.authorName st))
         (trim (CommentsSection.content st))].
Proof.
  intros Hv Hr out.
  destruct (commentSchema_safeParse _) as [v|] eqn:Ev; [|done].
  assert (E : out = (CommentsSection.setSubmitting false
                       (CommentsSection.setSubmitting true
                          (CommentsSection.setErrors ∅ st)),
                     [store (Store.insert_comment articleId
                               (trim (CommentsSection.authorName st))
                               (trim (CommentsSection.content st)));
                      console_error "Error submitting comment:";
                      toast {| title := "Erro";
                               description := "Não foi possível enviar o comentário.";
                               destructive := true |}])).
  { subst out. unfold CommentsSection.handleSubmit.
    rewrite (handleSubmit_begin_success articleId st v Ev). cbn [store_calls omap].
    unfold CommentsSection.handleSubmit_resume. by rewrite Hr. }
  rewrite E. cbn [fst snd]. split_and!; try done.
  unfold CommentsSection.handleSubmit.
  rewrite (handleSubmit_begin_success articleId _ v) by exact Ev.
  cbn [store_calls omap]. unfold CommentsSection.handleSubmit_resume.
  by destruct (Store.unwrap r').
Qed.

Lemma retry_after_failure_resends_witness :
  let st := CommentsSection.setContent (lit "Hello!")
              (CommentsSection.setAuthorName (lit "Jo") CommentsSection.initial) in
  let out := CommentsSection.handleSubmit (A:=unit) (lit "a1") Store.rejected st in
  store_calls (CommentsSection.handleSubmit (lit "a1") (Store.ok tt) out.1).2
  = [Store.insert_comment (lit "a1") (lit "Jo") (lit "Hello!")].
Proof.
  intros st out.
  destruct (retry_after_failure_resends (A:=unit) (lit "a1") Store.rejected
              (Store.ok tt) st) as (_&_&_&_& H1 & H2);
    [reflexivity | reflexivity |].
  etrans; [exact H1 | etrans; [exact H2 | reflexivity]].
Defined.

(** ** The sign-in page *)
Section AuthFacts.
Import AuthPage JSText.
Variable is_email : jsstring → bool.
Implicit Types (st : State) (r : AuthSettled) (s p : jsstring).

Lemma starts_with_spec p s : starts_with p s = true ↔ ∃ q, s = p ++ q.
Proof.
  revert s. induction p as [|a p IH]; intros s; simpl.
  - split; [by eexists | done].
  - destruct s as [|b s]; [split; [done | by intros [? ?]]|].
    rewrite andb_true_iff, N.eqb_eq, IH. split.
    + intros [-> [q ->]]. by exists q.
    + intros [q [= -> ->]]. eauto.
Qed.

(** [includes] finds the text wherever it stands. *)
Lemma includes_spec s p : includes s p = true ↔ ∃ l q, s = l ++ p ++ q.
Proof.
  induction s as [|c s IH].
  - simpl. rewrite orb_false_r, starts_with_spec. split.
    + intros [q E]. by exists [], q.
    + intros (l & q & E). destruct l; [by exists q|done].
  - cbn [includes]. rewrite orb_true_iff, starts_with_spec, IH. split.
    + intros [[q E]|(l & q & ->)]; [by exists [], q | by exists (c :: l), q].
    + intros (l & q & E). destruct l as [|d l]; [left; by exists q|].
      right. injection E as -> ->. by exists l, q.
Qed.

Lemma authSchema_issues_nil e p :
  authSchema_issues is_email e p = [] ↔ is_email e = true ∧ 6 ≤ length p.
Proof.
  unfold authSchema_issues. rewrite app_nil, !at_path_nil, min_issues.
  by destruct (is_email e); split; intros [? ?].
Qed.

Lemma auth_begin_valid st :
  is_email (email st) = true → 6 ≤ length (password st) →
  handleSubmit_begin is_email st
  = (setLoading true (setError None st),
     Some (if isLogin st then signIn (email st) (password st)
           else signUp (email st) (password st))).
Proof.
  intros He Hp. unfold handleSubmit_begin. cbn [email password setLoading setError].
  by rewrite (proj2 (authSchema_issues_nil _ _) (conj He Hp)).
Qed.

Lemma auth_begin_invalid st :
  is_email (email st) = false ∨ length (password st) < 6 →
  handleSubmit_begin is_email st
  = (setLoading false
       (setError
          (Some (fixed (if is_email (email st) then "Senha deve ter no mínimo 6 caracteres"
                        else "Email inválido")))
          (setLoading true (setError None st))), None).
Proof.
  intros H. unfold handleSubmit_begin, authSchema_issues.
  cbn [email password setLoading setError]. simpl.
  destruct (is_email (email st)); simpl; [|done].
  destruct H as [?|H]; [done|].
  destruct (Nat.ltb_spec (length (password st)) 6); [done|lia].
Qed.

End AuthFacts.

(** X13.  The sign-in page calls the auth client exactly when the
    email passes the email test and the password, untrimmed, has at
    least six code units.  Otherwise it ends with [loading] off, the
    mode unchanged, and the message of the first failing field on
    show, the email's before the password's. *)
Theorem auth_invalid_input_blocks (is_email : jsstring → bool)
    (r : AuthPage.AuthSettled) (st : AuthPage.State) :
  let out := AuthPage.handleSubmit is_email r st in
  (out.2 = None ↔
     is_email (AuthPage.email st) = false ∨ length (AuthPage.password st) < 6)
  ∧ (out.2 = None →
     AuthPage.loading out.1 = false
     ∧ AuthPage.isLogin out.1 = AuthPage.isLogin st
     ∧ AuthPage.error out.1
       = Some (AuthPage.fixed
                 (if is_email (AuthPage.email st)
                  then "Senha deve ter no mínimo 6 caracteres"
                  else "Email inválido"))).
Proof.
  intros out. subst out. unfold AuthPage.handleSubmit.
  destruct (is_email (AuthPage.email st)) eqn:He.
  - destruct (Nat.ltb_spec (length (AuthPage.password st)) 6) as [Hp|Hp].
    + rewrite (auth_begin_invalid is_email st) by auto. rewrite He.
      split; [split; auto | done].
    + rewrite (auth_begin_valid is_email st He Hp).
      split; [split; [done | intros [?|?]; [done|lia]] | done].
  - rewrite (auth_begin_invalid is_email st) by auto. rewrite He.
    split; [split; auto | done].
Qed.

Lemma auth_invalid_input_blocks_witness :
  let st := {| AuthPage.isLogin := true; AuthPage.email := lit "a@b.c";
               AuthPage.password := lit " abc "; AuthPage.error := None;
               AuthPage.loading := false |} in
  AuthPage.error (AuthPage.handleSubmit (fun _ => true) AuthPage.threw st).1
  = Some (AuthPage.fixed "Senha deve ter no mínimo 6 caracteres").
Proof.
  intros st.
  destruct (auth_invalid_input_blocks (fun _ => true) AuthPage.threw st)
    as (_ & H).
  destruct (H eq_refl) as (_ & _ & E). exact E.
Defined.

(** X14.  On valid input the page calls [signIn] or [signUp], by its
    mode, with the email and the password as typed; whatever comes
    back, [loading] ends off and the inputs stay; the error is cleared
    exactly when the call answers without error; and the mode changes
    only from sign-up to sign-in, when a sign-up answers without
    error. *)
Theorem auth_handleSubmit_outcomes (is_email : jsstring → bool)
    (r : AuthPage.AuthSettled) (st : AuthPage.State) :
  is_email (AuthPage.email st) = true → 6 ≤ length (AuthPage.password st) →
  let out := AuthPage.handleSubmit is_email r st in
  out.2 = Some (if AuthPage.isLogin st
                then AuthPage.signIn (AuthPage.email st) (AuthPage.password st)
                else AuthPage.signUp (AuthPage.email st) (AuthPage.password st))
  ∧ AuthPage.loading out.1 = false
  ∧ AuthPage.email out.1 = AuthPage.email st
  ∧ AuthPage.password out.1 = AuthPage.password st
  ∧ (AuthPage.error out.1 = None ↔ r = AuthPage.answered None)
  ∧ (AuthPage.isLogin out.1 = true
     ↔ AuthPage.isLogin st = true ∨ r = AuthPage.answered None).
Proof.
  intros He Hp out. subst out. unfold AuthPage.handleSubmit.
  rewrite (auth_begin_valid is_email st He Hp).
  destruct st as [lg e p er ld]. cbn [fst snd AuthPage.isLogin AuthPage.email
    AuthPage.password].
  destruct lg, r as [[m|]|]; cbn; split_and!; try done;
    try (split; [by repeat case_match | by intros]);
    try (split; [by auto | by intros]);
    try (split; [done | by intros [?|?]]).
Qed.

Lemma auth_handleSubmit_outcomes_witness :
  let st := {| AuthPage.isLogin := false; AuthPage.email := lit "a@b.c";
               AuthPage.password := lit "secret"; AuthPage.error := None;
               AuthPage.loading := false |} in
  AuthPage.isLogin
    (AuthPage.handleSubmit (fun _ => true) (AuthPage.answered None) st).1 = true.
Proof.
  intros st.
  destruct (auth_handleSubmit_outcomes (fun _ => true) (AuthPage.answered None) st)
    as (_&_&_&_&_& H); [reflexivity | vm_compute; lia |].
  apply H. by right.
Defined.

(** X15.  The message of a failed sign-in is replaced by the page's
    text exactly when it is "Invalid login credentials", and that of a
    failed sign-up exactly when it holds "already registered"
    somewhere; any other message is shown as it came; a call that
    throws gives the page's general text. *)
Theorem auth_error_translation (call : AuthPage.AuthCall) (m : jsstring)
    (st : AuthPage.State) :
  (∀ e p, call = AuthPage.signIn e p →
     AuthPage.error (AuthPage.handleSubmit_resume call (AuthPage.answered (Some m)) st)
     = Some (if decide (m = lit "Invalid login credentials")
             then AuthPage.fixed "Credenciais inválidas. Verifique seu email e senha."
             else AuthPage.raw m))
  ∧ (∀ e p, call = AuthPage.signUp e p →
     (∃ l q, m = l ++ lit "already registered" ++ q) →
     AuthPage.error (AuthPage.handleSubmit_resume call (AuthPage.answered (Some m)) st)
     = Some (AuthPage.fixed "Este email já está cadastrado."))
  ∧ (∀ e p, call = AuthPage.signUp e p →
     ¬ (∃ l q, m = l ++ lit "already registered" ++ q) →
     AuthPage.error (AuthPage.handleSubmit_resume call (AuthPage.answered (Some m)) st)
     = Some (AuthPage.raw m))
  ∧ AuthPage.error (AuthPage.handleSubmit_resume call AuthPage.threw st)
    = Some (AuthPage.fixed "Erro ao processar requisição.")
  ∧ AuthPage.isLogin
      (AuthPage.handleSubmit_resume call (AuthPage.answered (Some m)) st)
    = AuthPage.isLogin st.
Proof.
  split_and!.
  - by intros e p ->.
  - intros e p -> H%includes_spec. unfold AuthPage.handleSubmit_resume.
    by rewrite H.
  - intros e p -> H. unfold AuthPage.handleSubmit_resume.
    destruct (JSText.includes m (lit "already registered")) eqn:E; [|done].
    by apply includes_spec in E.
  - by destruct call.
  - by destruct call.
Qed.

Lemma auth_error_translation_witness :
  AuthPage.error
    (AuthPage.handleSubmit_resume (AuthPage.signUp (lit "a@b.c") (lit "secret"))
       (AuthPage.answered (Some (lit "User already registered")))
       AuthPage.initial)
  = Some (AuthPage.fixed "Este email já está cadastrado.").
Proof.
  destruct (auth_error_translation (AuthPage.signUp (lit "a@b.c") (lit "secret"))
              (lit "User already registered") AuthPage.initial) as (_ & H & _).
  apply (H (lit "a@b.c") (lit "secret") eq_refl).
  exists (lit "User "), []. reflexivity.
Defined.

(** X16.  The sign-in page and the management page never send the
    visitor to each other in turn: with an identity only the sign-in
    page redirects, to the management page; without one only the
    management page redirects, to the sign-in page, and only once the
    session has loaded. *)
Theorem redirects_do_not_loop (ctx : AdminPage.AuthContext) :
  (AuthPage.Auth_effect ctx = [] ∨ AdminPage.Admin_effect ctx = [])
  ∧ (∀ u, AdminPage.user ctx = Some u →
       AuthPage.Auth_effect ctx = [navigate "/admin"]
       ∧ AdminPage.Admin_effect ctx = [])
  ∧ (AdminPage.user ctx = None →
       AuthPage.Auth_effect ctx = []
       ∧ AdminPage.Admin_effect ctx
         = if AdminPage.loading ctx then [] else [navigate "/auth"]).
Proof.
  destruct ctx as [[u|] [|] adm]; split_and!; try done; auto.
Qed.

Lemma redirects_do_not_loop_witness :
  let ctx := {| AdminPage.user := None; AdminPage.loading := true;
                AdminPage.isAdmin := false |} in
  AuthPage.Auth_effect ctx = [] ∧ AdminPage.Admin_effect ctx = [].
Proof.
  intros ctx. destruct (redirects_do_not_loop ctx) as (_ & _ & H).
  exact (H eq_refl).
Defined.

(** ** The public lists *)
Section PublicListFacts.
Import PublicList Store.
Context {A : Type}.
Implicit Types (st : State A) (r : Settled (list A)).

Lemma fetch_resume_cases label r st :
  loading (fetch_resume label r st).1 = false
  ∧ ((items (fetch_resume label r st).1 = items st)
     ∨ (r = ok (items (fetch_resume label r st).1)
        ∧ items (fetch_resume label r st).1 ≠ [])).
Proof.
  destruct r as [[[[|d ds]|] [e|]]|]; simpl; split; auto.
Qed.

Lemma fetch_resume_nonempty label r st :
  items st ≠ [] → items (fetch_resume label r st).1 ≠ [].
Proof.
  intros H. destruct (fetch_resume_cases label r st) as [_ [->|[_ ?]]]; done.
Qed.

End PublicListFacts.

(** X17.  Whatever the store answers, and however often the list is
    fetched, the articles section never shows an empty list: it shows
    the fallback articles or the list of an answer that came without
    error and was not empty; an error, a rejection, [null] and the
    empty list all leave the list as it was.  After the first fetch
    [loading] is off. *)
Theorem articles_section_never_empty
    (rs : list (Store.Settled (list ArticleItem.t))) :
  let st := foldl (fun st r => (ArticlesSection.fetchArticles_resume r st).1)
              ArticlesSection.initial rs in
  PublicList.items st ≠ []
  ∧ (rs ≠ [] → PublicList.loading st = false)
  ∧ (PublicList.items st = ArticlesSection.FALLBACK_ARTICLES
     ∨ Store.ok (PublicList.items st) ∈ rs)
  ∧ (∀ r, Store.unwrap r = None ∨ r = Store.ok_null ∨ r = Store.ok [] →
       PublicList.items (ArticlesSection.fetchArticles_resume r st).1
       = PublicList.items st).
Proof.
  induction rs as [|r rs IH] using rev_ind.
  - simpl. split_and!; try done; [by left|].
    intros r [H|[->| ->]]; [|done|done].
    by destruct r as [[[[|d ds]|] [e|]]|].
  - rewrite foldl_app. cbn [foldl]. cbn zeta in IH.
    set (st := foldl _ ArticlesSection.initial rs) in *.
    destruct IH as (Hne & _ & Hsrc & _).
    unfold ArticlesSection.fetchArticles_resume.
    destruct (fetch_resume_cases "Error fetching articles:" r st) as [Hl Hc].
    split_and!.
    + by apply fetch_resume_nonempty.
    + done.
    + destruct Hc as [->|[E _]].
      * destruct Hsrc as [?|?]; [by left | right; apply elem_of_app; by left].
      * right. apply elem_of_app. right. rewrite <- E. by left.
    + intros r' [H|[->| ->]]; [|done|done].
      by destruct r' as [[[[|d ds]|] [e|]]|].
Qed.

Lemma articles_section_never_empty_witness :
  let e := {| Store.pg_code := "500"; Store.pg_message := "down" |} in
  PublicList.items
    (ArticlesSection.fetchArticles_resume (Store.failed e)
       (foldl (fun st r => (ArticlesSection.fetchArticles_resume r st).1)
          ArticlesSection.initial [Store.ok []; Store.rejected])).1
  = ArticlesSection.FALLBACK_ARTICLES.
Proof.
  intros e.
  destruct (articles_section_never_empty [Store.ok []; Store.rejected])
    as (_ & _ & _ & H).
  etrans; [apply H; by left | reflexivity].
Defined.

Section RowFacts.
Import ArticlesSection JSText.
Implicit Types (s r g : jsstring).

Lemma hex_group_spec n s r :
  hex_group n s = Some r
  ↔ ∃ g, s = g ++ r ∧ length g = n ∧ Forall (fun c => is_hex c = true) g.
Proof.
  revert s. induction n as [|n IH]; intros s; simpl.
  - split.
    + intros [= ->]. by exists [].
    + intros (g & -> & Hg & _). by destruct g.
  - destruct s as [|c s].
    + split; [done|]. intros (g & E & Hg & _). by destruct g.
    + destruct (is_hex c) eqn:Hc.
      * rewrite IH. split.
        -- intros (g & -> & Hg & Hh). exists (c :: g). simpl. by auto.
        -- intros (g & E & Hg & Hh). destruct g as [|d g]; [done|].
           injection E as <- ->. inversion Hh; subst. exists g. by auto.
      * split; [done|]. intros (g & E & Hg & Hh). destruct g as [|d g]; [done|].
        injection E as <- ->. inversion Hh; subst. congruence.
Qed.

Lemma dash_spec s r : dash s = Some r ↔ s = 45%N :: r.
Proof.
  destruct s as [|c s]; simpl; [done|].
  destruct c as [|p]; [done|].
  destruct (decide (p = 45%positive)) as [->|Hp].
  - split; by intros [= ->].
  - split; [|by intros [= ? ?]].
    do 6 (destruct p as [p|p|]; try done).
Qed.

End RowFacts.

Section UuidFacts.
Import ArticlesSection JSText.
Implicit Types (s r g : jsstring).

Lemma hex_group_app n g r : hex_run n g → hex_group n (g ++ r) = Some r.
Proof. intros [? ?]. apply hex_group_spec. by exists g. Qed.

Lemma isDbArticle_spec s :
  isDbArticle s = true
  ↔ ∃ g1 g2 g3 g4 g5,
      s = g1 ++ 45%N :: g2 ++ 45%N :: g3 ++ 45%N :: g4 ++ 45%N :: g5
      ∧ hex_run 8 g1 ∧ hex_run 4 g2 ∧ hex_run 4 g3 ∧ hex_run 4 g4
      ∧ hex_run 12 g5.
Proof.
  unfold isDbArticle. split.
  - match goal with
    | |- match ?o with _ => _ end = true → _ => destruct o as [[|? ?]|] eqn:E
    end; try done. intros _.
    apply bind_Some in E as (r8 & E & H5).
    apply bind_Some in E as (r7 & E & H4d).
    apply bind_Some in E as (r6 & E & H4).
    apply bind_Some in E as (r5 & E & H3d).
    apply bind_Some in E as (r4 & E & H3).
    apply bind_Some in E as (r3 & E & H2d).
    apply bind_Some in E as (r2 & E & H2).
    apply bind_Some in E as (r1 & H1 & H1d).
    apply hex_group_spec in H1 as (g1 & -> & ? & ?).
    apply dash_spec in H1d as ->.
    apply hex_group_spec in H2 as (g2 & -> & ? & ?).
    apply dash_spec in H2d as ->.
    apply hex_group_spec in H3 as (g3 & -> & ? & ?).
    apply dash_spec in H3d as ->.
    apply hex_group_spec in H4 as (g4 & -> & ? & ?).
    apply dash_spec in H4d as ->.
    apply hex_group_spec in H5 as (g5 & -> & ? & ?).
    exists g1, g2, g3, g4, g5. rewrite app_nil_r. by repeat split.
  - intros (g1 & g2 & g3 & g4 & g5 & -> & H1 & H2 & H3 & H4 & H5).
    rewrite (hex_group_app 8 g1 _ H1). cbn [mbind option_bind dash].
    rewrite (hex_group_app 4 g2 _ H2). cbn [mbind option_bind dash].
    rewrite (hex_group_app 4 g3 _ H3). cbn [mbind option_bind dash].
    rewrite (hex_group_app 4 g4 _ H4). cbn [mbind option_bind dash].
    rewrite <- (app_nil_r g5), (hex_group_app 12 g5 [] H5). done.
Qed.

Lemma isDbArticle_length s : isDbArticle s = true → length s = 36.
Proof.
  intros (g1 & g2 & g3 & g4 & g5 & -> & [E1 _] & [E2 _] & [E3 _] & [E4 _] & [E5 _])
    %isDbArticle_spec.
  rewrite !length_app. simpl. rewrite !length_app. simpl.
  rewrite !length_app. simpl. rewrite !length_app. simpl. lia.
Qed.

End UuidFacts.

(** X18.  The test for a database article accepts exactly the strings
    made of five runs of hex digits, of either case, of lengths 8, 4,
    4, 4 and 12, with one dash between two runs and nothing before or
    after; such a string has 36 code units. *)
Theorem db_article_id_shape (s : jsstring) :
  (ArticlesSection.isDbArticle s = true
   ↔ ∃ g1 g2 g3 g4 g5,
       s = g1 ++ 45%N :: g2 ++ 45%N :: g3 ++ 45%N :: g4 ++ 45%N :: g5
       ∧ hex_run 8 g1 ∧ hex_run 4 g2 ∧ hex_run 4 g3 ∧ hex_run 4 g4
       ∧ hex_run 12 g5)
  ∧ (ArticlesSection.isDbArticle s = true → length s = 36).
Proof. split; [apply isDbArticle_spec | apply isDbArticle_length]. Qed.

Lemma db_article_id_shape_witness :
  ArticlesSection.isDbArticle (lit "123e4567-E89B-12d3-a456-426614174000") = true.
Proof.
  apply (proj1 (db_article_id_shape _)).
  exists (lit "123e4567"), (lit "E89B"), (lit "12d3"), (lit "a456"),
    (lit "426614174000").
  split; [reflexivity|]. unfold hex_run.
  repeat split; try reflexivity; repeat constructor.
Defined.

(** X19.  The link of a row is never empty: for a database article it
    is the article route followed by the identifier; for any other it
    is the row's own link when that is a non-empty string and "#"
    otherwise.  An identifier that has not 36 code units is never
    taken for a database article. *)
Theorem article_row_href (article : ArticleItem.t) :
  ArticlesSection.href article ≠ []
  ∧ (ArticlesSection.isDbArticle (ArticleItem.id article) = true →
     ArticlesSection.href article = lit "/artigo/" ++ ArticleItem.id article)
  ∧ (ArticlesSection.isDbArticle (ArticleItem.id article) = false →
     ArticlesSection.href article
     = match ArticleItem.url article with
       | Some (c :: u) => c :: u
       | _ => lit "#"
       end)
  ∧ (length (ArticleItem.id article) ≠ 36 →
     ArticlesSection.isDbArticle (ArticleItem.id article) = false).
Proof.
  unfold ArticlesSection.href.
  destruct (ArticlesSection.isDbArticle (ArticleItem.id article)) eqn:E.
  - split_and!; try done. intros H. by apply isDbArticle_length in E.
  - split_and!; try done; by destruct (ArticleItem.url article) as [[|? ?]|].
Qed.

Lemma article_row_href_witness :
  let a := ArticleItem.mk (lit "art-1") (lit "SOLID") (lit "Text")
             (lit "2024-01-15") (lit "8 min") (lit "Geral") (Some []) in
  ArticlesSection.href a = lit "#".
Proof.
  intros a. destruct (article_row_href a) as (_ & _ & H & Hl).
  etrans; [apply H, Hl; vm_compute; lia | reflexivity].
Defined.

(** ** More on the article page *)
Section TitleFacts.
Import JSText.
Implicit Types (s u v w : jsstring) (b : bool).

Lemma replace_spaces_no_white b s : no_white (replace_spaces b s).
Proof.
  revert b. induction s as [|c s IH]; intros b; simpl; [constructor|].
  destruct (is_white_space c) eqn:Hc.
  - destruct b; [apply IH|]. constructor; [done | apply IH].
  - constructor; [done | apply IH].
Qed.

Lemma replace_spaces_id b s : no_white s → replace_spaces b s = s.
Proof.
  intros H. revert b. induction H as [|c s Hc _ IH]; intros b; simpl; [done|].
  by rewrite Hc, IH.
Qed.

Lemma replace_spaces_length b s : length (replace_spaces b s) ≤ length s.
Proof.
  revert b. induction s as [|c s IH]; intros b; simpl; [done|].
  pose proof (IH true). pose proof (IH false).
  destruct (is_white_space c), b; simpl; lia.
Qed.

Lemma replace_spaces_in_run w s :
  all_white w → replace_spaces true (w ++ s) = replace_spaces true s.
Proof. induction 1 as [|c w Hc _ IH]; simpl; [done|]. by rewrite Hc. Qed.

Lemma replace_spaces_word b u s :
  no_white u → u ≠ [] → replace_spaces b (u ++ s) = u ++ replace_spaces false s.
Proof.
  intros H. revert b. induction H as [|c u Hc Hu IH]; intros b Hne; [done|].
  simpl. rewrite Hc. f_equal. destruct u as [|d u]; [done|]. by apply IH.
Qed.

(** A run of white space between two words becomes one underscore. *)
Lemma replace_spaces_run u w v :
  no_white u → u ≠ [] → all_white w → w ≠ [] → no_white v →
  replace_spaces false (u ++ w ++ v) = u ++ 95%N :: v.
Proof.
  intros Hu Hune Hw Hwne Hv. rewrite replace_spaces_word by done. f_equal.
  destruct Hw as [|c w Hc Hw]; [done|]. simpl. rewrite Hc. f_equal.
  rewrite replace_spaces_in_run by done. by apply replace_spaces_id.
Qed.

Lemma replace_spaces_white b w s :
  all_white w →
  replace_spaces b (w ++ s)
  = match w with
    | [] => replace_spaces b s
    | _ => (if b then [] else [95%N]) ++ replace_spaces true s
    end.
Proof.
  intros Hw. destruct Hw as [|c w Hc Hw]; [done|]. simpl. rewrite Hc.
  rewrite replace_spaces_in_run by done. by destruct b.
Qed.

Lemma replace_spaces_pairs b (pairs : list (jsstring * jsstring)) :
  Forall (fun p => no_white p.1 ∧ p.1 ≠ [] ∧ all_white p.2) pairs →
  replace_spaces b (concat ((fun p => p.1 ++ p.2) <$> pairs))
  = concat ((fun p => p.1 ++ underscore_for p.2) <$> pairs).
Proof.
  intros H. revert b. induction H as [|[u r] pairs (Hu & Hne & Hr) _ IH]; intros b.
  - done.
  - cbn [fmap list_fmap concat fst snd] in *. rewrite <- !app_assoc.
    rewrite replace_spaces_word by done. f_equal.
    rewrite replace_spaces_white by done.
    destruct r as [|c r]; simpl; by rewrite IH.
Qed.

(** The title of a window, for every reading of the article's title. *)
Lemma replace_spaces_cut lead pairs :
  well_cut lead pairs →
  replace_spaces false (words_and_runs lead pairs)
  = underscore_for lead ++ concat ((fun p => p.1 ++ underscore_for p.2) <$> pairs).
Proof.
  intros [Hl Hp]. unfold words_and_runs. rewrite replace_spaces_white by done.
  destruct lead as [|c lead]; simpl; by rewrite replace_spaces_pairs.
Qed.

(** Every string can be read so. *)
Lemma words_and_runs_exist s :
  ∃ lead pairs, well_cut lead pairs ∧ s = words_and_runs lead pairs.
Proof.
  induction s as [|c s (lead & pairs & [Hl Hp] & ->)].
  - exists [], []. split; [split; constructor | done].
  - destruct (is_white_space c) eqn:Hc.
    + exists (c :: lead), pairs. split; [|done]. split; [by constructor | done].
    + exists [], (([c], lead) :: pairs). split; [|done].
      split; [constructor|]. constructor; [|done]. cbn [fst snd].
      split_and!; [by repeat constructor | done | done].
Qed.

End TitleFacts.

(** X20.  The window title of an article holds no white space.  Read
    the article's title as a run of white space, maybe empty, followed
    by words, each with the run of white space after it, maybe empty:
    every title can be read so, and for every such reading the window
    title is "C:\Artigos\", then one underscore for each run that is
    not empty and the words as they are, in their order, then ".txt".
    A title without white space is in it as it is, and it is never
    longer than the article's title plus the 15 code units around
    it. *)
Theorem window_title_has_no_space (a : Article.t) :
  no_white (ArticleWindow.window_title a)
  ∧ (no_white (Article.title a) →
     ArticleWindow.window_title a
     = lit "C:\Artigos\" ++ Article.title a ++ lit ".txt")
  ∧ (∀ lead pairs, well_cut lead pairs →
       Article.title a = words_and_runs lead pairs →
       ArticleWindow.window_title a
       = lit "C:\Artigos\"
         ++ (underscore_for lead
             ++ concat ((fun p => p.1 ++ underscore_for p.2) <$> pairs))
         ++ lit ".txt")
  ∧ (∃ lead pairs, well_cut lead pairs
                   ∧ Article.title a = words_and_runs lead pairs)
  ∧ (∀ u w v, Article.title a = u ++ w ++ v →
       no_white u → u ≠ [] → all_white w → w ≠ [] → no_white v →
       ArticleWindow.window_title a
       = lit "C:\Artigos\" ++ (u ++ 95%N :: v) ++ lit ".txt")
  ∧ length (ArticleWindow.window_title a) ≤ 15 + length (Article.title a).
Proof.
  unfold ArticleWindow.window_title. split_and!.
  - apply Forall_app. split; [by repeat constructor|].
    apply Forall_app. split; [apply replace_spaces_no_white | by repeat constructor].
  - intros H. by rewrite replace_spaces_id.
  - intros lead pairs Hcut ->. by rewrite replace_spaces_cut.
  - apply words_and_runs_exist.
  - intros u w v -> Hu Hune Hw Hwne Hv. by rewrite replace_spaces_run.
  - rewrite !length_app.
    pose proof (replace_spaces_length false (Article.title a)).
    change (length (lit "C:\Artigos\")) with 11.
    change (length (lit ".txt")) with 4. lia.
Qed.

Lemma window_title_has_no_space_witness :
  let a := Article.mk (lit "a1") (lit " Clean  code in  Rust ") (lit "Text") None
             (lit "Geral") (lit "5 min") (lit "2024") in
  ArticleWindow.window_title a = lit "C:\Artigos\_Clean_code_in_Rust_.txt".
Proof.
  intros a. destruct (window_title_has_no_space a) as (_ & _ & H & _).
  etrans;
    [apply (H (lit " ")
              [(lit "Clean", lit "  "); (lit "code", lit " ");
               (lit "in", lit "  "); (lit "Rust", lit " ")])
    | reflexivity].
  - split; repeat constructor; discriminate.
  - reflexivity.
Defined.

(** X21.  When the route carries no identifier, or an empty one,
    [fetchArticle] returns at once: no store call goes out and the
    state is untouched, so a page that was loading goes on showing the
    loading window. *)
Theorem missing_id_keeps_loading (rows : list ArticleRow.t)
    (id : option jsstring) (st : ArticlePage.State) :
  id = None ∨ id = Some [] →
  ArticlePage.fetchArticle rows id st = (st, [])
  ∧ (ArticlePage.loading st = true →
     ArticlePage.render (ArticlePage.fetchArticle rows id st).1
     = ArticlePage.LoadingWindow).
Proof.
  intros [-> | ->]; (split; [done|]); simpl; unfold ArticlePage.render;
    by intros ->.
Qed.

Lemma missing_id_keeps_loading_witness :
  ArticlePage.render
    (ArticlePage.fetchArticle [] (Some []) ArticlePage.initial).1
  = ArticlePage.LoadingWindow.
Proof.
  destruct (missing_id_keeps_loading [] (Some []) ArticlePage.initial) as (_ & H);
    [by right|].
  exact (H eq_refl).
Defined.

(** X22.  When exactly one visible row has the identifier asked for
    and it is published, the page ends showing that article, with the
    seven selected columns of the row; when a second published row
    has it too, the query is an error and the page keeps the article
    it had, with [loading] off. *)
Theorem published_article_is_shown (rows : list ArticleRow.t) (i : jsstring)
    (r : ArticleRow.t) (st : ArticlePage.State) :
  truthy i = true →
  ArticleRow.is_published r = true →
  (base.filter (fun r => ArticleRow.id r = i) rows = [r] →
   ArticlePage.render (ArticlePage.fetchArticle rows (Some i) st).1
   = ArticlePage.ArticleView (ArticlePage.select r)
   ∧ (ArticlePage.fetchArticle rows (Some i) st).2
     = [store (Store.select_article i)])
  ∧ (∀ r' l, base.filter (fun r => ArticleRow.id r = i) rows = r :: r' :: l →
       ArticleRow.is_published r' = true →
       (ArticlePage.fetchArticle rows (Some i) st).1
       = {| ArticlePage.article := ArticlePage.article st;
            ArticlePage.loading := false |}).
Proof.
  intros Hi Hp. unfold ArticlePage.fetchArticle, ArticlePage.query. rewrite Hi.
  split.
  - intros ->. by rewrite filter_cons, filter_nil, decide_True.
  - intros r' l -> Hp'. by rewrite !filter_cons, !decide_True.
Qed.

Lemma published_article_is_shown_witness :
  let shown := ArticleRow.mk (lit "a2") (lit "SOLID") (lit "Text") None
                 (lit "Geral") (lit "8 min") None true 1%Z
                 (lit "2024") (lit "2025") in
  let draft := ArticleRow.mk (lit "a1") (lit "Draft") (lit "Soon") None
                 (lit "Geral") (lit "5 min") None false 0%Z
                 (lit "2024") (lit "2024") in
  ArticlePage.render
    (ArticlePage.fetchArticle [draft; shown] (Some (lit "a2")) ArticlePage.initial).1
  = ArticlePage.ArticleView
      (Article.mk (lit "a2") (lit "SOLID") (lit "Text") None (lit "Geral")
         (lit "8 min") (lit "2024")).
Proof.
  intros shown draft.
  destruct (published_article_is_shown [draft; shown] (lit "a2") shown
              ArticlePage.initial eq_refl eq_refl) as (H & _).
  destruct H as (H & _); [reflexivity|].
  etrans; [exact H | reflexivity].
Defined.

(** ** The window *)

(** X23.  However the buttons of a window are pressed, it is never
    minimized and maximized at once: minimizing a maximized window
    restores its size, and maximizing a minimized one opens it. *)
Theorem window_never_both (evs : list RetroWindow.Event) :
  let st := foldl RetroWindow.step RetroWindow.initial evs in
  (RetroWindow.isMinimized st && RetroWindow.isMaximized st = false)
  ∧ (RetroWindow.isMaximized st = true →
     RetroWindow.isMinimized (RetroWindow.handleMinimize st) = true
     ∧ RetroWindow.isMaximized (RetroWindow.handleMinimize st) = false)
  ∧ (RetroWindow.isMinimized st = true →
     RetroWindow.isMaximized (RetroWindow.handleMaximize st) = true
     ∧ RetroWindow.isMinimized (RetroWindow.handleMaximize st) = false).
Proof.
  intros st.
  assert (H : RetroWindow.isMinimized st && RetroWindow.isMaximized st = false).
  { subst st. induction evs as [|ev evs IH] using rev_ind; [done|].
    rewrite foldl_app. cbn [foldl].
    destruct (foldl RetroWindow.step RetroWindow.initial evs) as [[|] [|] sh dl];
      by destruct ev. }
  split; [exact H|].
  destruct st as [[|] [|] sh dl]; by split.
Qed.

Lemma window_never_both_witness :
  let st := foldl RetroWindow.step RetroWindow.initial
              [RetroWindow.maximize; RetroWindow.close; RetroWindow.timeout] in
  RetroWindow.isMinimized (RetroWindow.handleMinimize st) = true
  ∧ RetroWindow.isMaximized (RetroWindow.handleMinimize st) = false.
Proof.
  intros st.
  destruct (window_never_both
              [RetroWindow.maximize; RetroWindow.close; RetroWindow.timeout])
    as (_ & H & _).
  exact (H eq_refl).
Defined.

(** ** The article form *)
Section ArticleFormFacts.
Import ArticleForm.
Variable is_url : jsstring → bool.
Implicit Types (fd : ArticleFormData.t) (errs : gmap string string).

Lemma articleSchema_issues_nil fd :
  articleSchema_issues is_url (dataToValidate fd) = []
  ↔ 1 ≤ length (ArticleFormData.title fd) ≤ 200
    ∧ 1 ≤ length (ArticleFormData.excerpt fd) ≤ 500
    ∧ 1 ≤ length (ArticleFormData.category fd)
    ∧ 1 ≤ length (ArticleFormData.read_time fd)
    ∧ (ArticleFormData.url fd = [] ∨ is_url (ArticleFormData.url fd) = true)
    ∧ (0 ≤ ArticleFormData.sort_order fd)%Z.
Proof.
  unfold articleSchema_issues. rewrite !app_nil, !at_path_nil.
  cbn [dataToValidate ArticleDraft.title ArticleDraft.excerpt ArticleDraft.category
       ArticleDraft.read_time ArticleDraft.url ArticleDraft.sort_order].
  by rewrite !minmax_issues, !min_issues, url_issues, sort_order_issues.
Qed.

Lemma article_handleSubmit_cases fd errs :
  (articleSchema_issues is_url (dataToValidate fd) = []
   ∧ handleSubmit is_url fd errs
     = (errs,
        Some (ArticlePayload.mk (ArticleFormData.title fd)
                (ArticleFormData.excerpt fd)
                (ProjectForm.or_none (ArticleFormData.content fd))
                (ArticleFormData.category fd) (ArticleFormData.read_time fd)
                (ProjectForm.or_none (ArticleFormData.url fd))
                (ArticleFormData.sort_order fd) (ArticleFormData.is_published fd))))
  ∨ (articleSchema_issues is_url (dataToValidate fd) ≠ []
     ∧ handleSubmit is_url fd errs
       = (collect_errors (articleSchema_issues is_url (dataToValidate fd)), None)).
Proof.
  unfold handleSubmit, articleSchema_safeParse.
  destruct (articleSchema_issues is_url (dataToValidate fd)) as [|i l] eqn:E.
  - by left.
  - by right.
Qed.

End ArticleFormFacts.

(** X24.  The article form calls [onSave] exactly when the title has 1
    to 200 code units, the excerpt 1 to 500, the category and the read
    time at least one, the link is empty or a URL, and the order is
    not negative: the content is never a reason to refuse, and the
    category need not be one of the listed ones.  What is saved is the
    form's data in all eight fields, with [null] for an empty content
    or link. *)
Theorem article_handleSubmit_saves_iff (is_url : jsstring → bool)
    (fd : ArticleFormData.t) (errs : gmap string string) :
  let out := ArticleForm.handleSubmit is_url fd errs in
  (is_Some out.2 ↔
     1 ≤ length (ArticleFormData.title fd) ≤ 200
     ∧ 1 ≤ length (ArticleFormData.excerpt fd) ≤ 500
     ∧ 1 ≤ length (ArticleFormData.category fd)
     ∧ 1 ≤ length (ArticleFormData.read_time fd)
     ∧ (ArticleFormData.url fd = [] ∨ is_url (ArticleFormData.url fd) = true)
     ∧ (0 ≤ ArticleFormData.sort_order fd)%Z)
  ∧ (∀ saved, out.2 = Some saved →
       out.1 = errs
       ∧ ArticlePayload.title saved = ArticleFormData.title fd
       ∧ ArticlePayload.excerpt saved = ArticleFormData.excerpt fd
       ∧ ArticlePayload.category saved = ArticleFormData.category fd
       ∧ ArticlePayload.read_time saved = ArticleFormData.read_time fd
       ∧ ArticlePayload.content saved
         = match ArticleFormData.content fd with [] => None | c => Some c end
       ∧ ArticlePayload.url saved
         = match ArticleFormData.url fd with [] => None | u => Some u end
       ∧ ArticlePayload.sort_order saved = ArticleFormData.sort_order fd
       ∧ ArticlePayload.is_published saved = ArticleFormData.is_published fd
       ∧ saved
         = ArticlePayload.mk (ArticleFormData.title fd) (ArticleFormData.excerpt fd)
             (ProjectForm.or_none (ArticleFormData.content fd))
             (ArticleFormData.category fd) (ArticleFormData.read_time fd)
             (ProjectForm.or_none (ArticleFormData.url fd))
             (ArticleFormData.sort_order fd) (ArticleFormData.is_published fd))
  ∧ (out.2 = None → out.1 ≠ ∅).
Proof.
  intros out. subst out.
  destruct (article_handleSubmit_cases is_url fd errs) as [[Hi ->]|[Hi ->]];
    cbn [fst snd].
  - split_and!; [| |done].
    + split; [intros _; by apply articleSchema_issues_nil | by eauto].
    + intros saved [= <-]. cbn. split_and!; try done.
      * by destruct (ArticleFormData.content fd).
      * by destruct (ArticleFormData.url fd).
  - split_and!.
    + split; [by intros [? ?]|]. intros H. by apply articleSchema_issues_nil in H.
    + done.
    + intros _. by apply collect_errors_nonempty.
Qed.

Lemma article_handleSubmit_saves_iff_witness :
  let fd := ArticleFormData.mk (lit "SOLID") (lit "Text") [] (lit "Rust")
              (lit "5 min") [] 0%Z true in
  ArticlePayload.content <$> (ArticleForm.handleSubmit (fun _ => false) fd ∅).2
  = Some None
  ∧ lit "Rust" ∉ ArticleForm.CATEGORIES.
Proof.
  intros fd.
  destruct (article_handleSubmit_saves_iff (fun _ => false) fd ∅) as (Hs & Hp & _).
  split.
  - destruct (ArticleForm.handleSubmit (fun _ => false) fd ∅).2 as [saved|] eqn:E.
    + destruct (Hp saved eq_refl) as (_&_&_&_&_& Hc & _). simpl. by rewrite Hc.
    + exfalso. assert (H : is_Some (@None ArticlePayload.t)); [|by destruct H].
      apply Hs. vm_compute. repeat split; auto; try lia; discriminate.
  - vm_compute. intros H.
    repeat (apply elem_of_cons in H as [H|H]; [discriminate H|]).
    by apply elem_of_nil in H.
Defined.
